(** * Shallow embedding of the call-session engine of voip_webrtc_freepbx

  Source: static/src/js/voip_sip_client.js (class VoipSipClient), and
  the startHoldMusic method of static/src/js/voip_hold_music.js.
  Each module below embeds one group of methods of the class; the
  browser objects they touch (MediaRecorder, fetch, RTCPeerConnection,
  HTMLAudioElement, SIP.js sessions) are modelled by the fields of
  those objects that the methods read or write. *)

From Stdlib Require Import String Ascii List Bool Arith ZArith Lia.
Import ListNotations.

(** ** Recording upload: saveRecording, stopRecording, mediaRecorder.onstop *)
Module Recording.

(** Outcome of [await fetch('/voip_webrtc_freepbx/save_recording', ...)]
    together with the body read that follows it. *)
Inductive outcome :=
| RespOk          (* response.ok and response.json() resolves *)
| RespOkBadJson   (* response.ok but response.json() rejects *)
| RespNotOk       (* !response.ok: response.text(), then throw *)
| NetworkError.   (* fetch rejects *)

Definition response_ok (o : outcome) : bool :=
  match o with RespOk | RespOkBadJson => true | _ => false end.

(** The fields of the client that the recording code reads and writes.
    [recorderActive] is [mediaRecorder.state !== 'inactive'];
    [onstopPending] says that [mediaRecorder.stop()] was called and the
    [stop] event has not been dispatched yet; [inflight] holds the POSTs
    issued by saveRecording and not yet answered, each tagged with
    whether that saveRecording call came from the onstop handler (whose
    [.then] continuation runs when it resolves); [postsOk] counts the
    POSTs the server answered with an OK status. *)
Record client := mkClient {
  recordedChunks : list nat;   (* chunk sizes *)
  recordingSaved : bool;
  recordingSaving : bool;
  recorderActive : bool;
  onstopPending : bool;
  inflight : list bool;
  postsOk : nat
}.

Definition set_saved (b : bool) (c : client) : client :=
  mkClient (recordedChunks c) b (recordingSaving c) (recorderActive c)
           (onstopPending c) (inflight c) (postsOk c).
Definition set_saving (b : bool) (c : client) : client :=
  mkClient (recordedChunks c) (recordingSaved c) b (recorderActive c)
           (onstopPending c) (inflight c) (postsOk c).
Definition set_chunks (l : list nat) (c : client) : client :=
  mkClient l (recordingSaved c) (recordingSaving c) (recorderActive c)
           (onstopPending c) (inflight c) (postsOk c).
Definition set_recorder (active pending : bool) (c : client) : client :=
  mkClient (recordedChunks c) (recordingSaved c) (recordingSaving c)
           active pending (inflight c) (postsOk c).
Definition set_inflight (l : list bool) (c : client) : client :=
  mkClient (recordedChunks c) (recordingSaved c) (recordingSaving c)
           (recorderActive c) (onstopPending c) l (postsOk c).
Definition incr_posts_ok (c : client) : client :=
  mkClient (recordedChunks c) (recordingSaved c) (recordingSaving c)
           (recorderActive c) (onstopPending c) (inflight c) (S (postsOk c)).

(** The [.then]/[.catch] continuation chained by the onstop handler of
    startRecording(stream) on [this.saveRecording()]: both branches
    reset [recordingSaved] and [recordingSaving] to false (the timing
    fields and the stream cleanup are not modelled). *)
Definition onstop_then (c : client) : client :=
  set_saving false (set_saved false c).

(** The synchronous part of saveRecording, up to [await fetch(...)].
    Both early [return]s are inside [try], so the [finally] block
    ([this.recordingSaving = false]) runs on them and the returned
    promise resolves at once; when the caller is the onstop handler its
    [.then] continuation follows. *)
Definition saveRecording_call (from_onstop : bool) (c : client) : client :=
  let return_early c' :=
    let c'' := set_saving false c' in
    if from_onstop then onstop_then c'' else c'' in
  if recordingSaved c || recordingSaving c then return_early c
  else match recordedChunks c with
       | [] => return_early c
       | _ :: _ =>
           set_inflight (inflight c ++ [from_onstop]) (set_saving true c)
       end.

(** The rest of saveRecording once the POST is answered: on OK with a
    JSON body [recordingSaved = true]; otherwise the error is caught;
    [finally] clears [recordingSaving]; then the onstop continuation. *)
Definition saveRecording_resume (from_onstop : bool) (o : outcome)
    (c : client) : client :=
  let c1 := if response_ok o then incr_posts_ok c else c in
  let c2 := match o with RespOk => set_saved true c1 | _ => c1 end in
  let c3 := set_saving false c2 in
  if from_onstop then onstop_then c3 else c3.

(** stopRecording *)
Definition stopRecording (c : client) : client :=
  if recorderActive c then set_recorder false true c
  else match recordedChunks c with
       | [] => c
       | _ :: _ => saveRecording_call false c
       end.

(** The onstop handler installed by startRecording(stream). *)
Definition onstop (c : client) : client :=
  match recordedChunks c with
  | [] => c
  | _ :: _ => saveRecording_call true c
  end.

(** The ondataavailable handler: non-empty chunks are appended. *)
Definition ondataavailable (size : nat) (c : client) : client :=
  if 0 <? size then set_chunks (recordedChunks c ++ [size]) c else c.

Fixpoint remove_nth {A} (n : nat) (l : list A) : list A :=
  match n, l with
  | _, [] => []
  | O, _ :: t => t
  | S n', x :: t => x :: remove_nth n' t
  end.

(** Events of one call session after startRecording(stream). *)
Inductive event :=
| EData (size : nat)                (* dataavailable *)
| EStopRecording                    (* a call of stopRecording() *)
| EOnstop                           (* the recorder's stop event *)
| EResponse (i : nat) (o : outcome). (* the i-th pending POST answered *)

Definition step (e : event) (c : client) : client :=
  match e with
  | EData n =>
      if recorderActive c || onstopPending c then ondataavailable n c else c
  | EStopRecording => stopRecording c
  | EOnstop =>
      if onstopPending c then onstop (set_recorder false false c) else c
  | EResponse i o =>
      match nth_error (inflight c) i with
      | None => c
      | Some from_onstop =>
          saveRecording_resume from_onstop o
            (set_inflight (remove_nth i (inflight c)) c)
      end
  end.

Fixpoint run (es : list event) (c : client) : client :=
  match es with
  | [] => c
  | e :: es' => run es' (step e c)
  end.

(** State right after startRecording(stream) succeeded: chunks and both
    flags reset, recorder started. *)
Definition session_start : client :=
  mkClient [] false false true false [] 0.

End Recording.

(** ** Hold and resume: holdCall, resumeCall *)
Module HoldResume.

Inductive kind := Audio | Video.

(** A MediaStreamTrack: its kind, its [enabled] flag, whether the
    custom [IsMixedTrack] property is [true], and an identity standing
    for the object reference (a sender's track is replaced only by
    [replaceTrack], which holdCall and resumeCall never call). *)
Record track := mkTrack {
  trackId : nat;
  trackKind : kind;
  enabled : bool;
  isMixed : bool
}.

Definition set_enabled (b : bool) (t : track) : track :=
  mkTrack (trackId t) (trackKind t) b (isMixed t).

(** [pc.getReceivers()] and [pc.getSenders()]: each RTCRtpReceiver or
    RTCRtpSender as its [track] field, null being [None]. *)
Record peer := mkPeer {
  receivers : list (option track);
  senders : list (option track)
}.

(** The JavaScript value of [session.isOnHold]: [None] is [undefined]
    (no code sets it when a session is created). *)
Definition js_flag := option bool.

(** The fields of a SIP.js session that holdCall/resumeCall use.
    [reinviteHold] is [sessionDescriptionHandlerOptionsReInvite], [None]
    when that object is undefined, otherwise its [hold] field;
    [peerConn] is [sessionDescriptionHandler.peerConnection] ([None]
    when either is missing); [audioSourceTrack] is
    [data.AudioSourceTrack]; [holdLog] is [data.hold]. *)
Record session := mkSession {
  isOnHold : js_flag;
  reinviteHold : option bool;
  peerConn : option peer;
  audioSourceTrack : option track;
  holdLog : list string
}.

Definition set_isOnHold (f : js_flag) (s : session) : session :=
  mkSession f (reinviteHold s) (peerConn s) (audioSourceTrack s) (holdLog s).
Definition set_reinviteHold (b : bool) (s : session) : session :=
  mkSession (isOnHold s) (Some b) (peerConn s) (audioSourceTrack s) (holdLog s).
Definition set_peer (p : option peer) (ast : option track) (s : session)
  : session :=
  mkSession (isOnHold s) (reinviteHold s) p ast (holdLog s).
Definition push_hold_log (ev : string) (s : session) : session :=
  mkSession (isOnHold s) (reinviteHold s) (peerConn s) (audioSourceTrack s)
            (holdLog s ++ [ev]).

(** How [await this.currentSession.invite(options)] ends.  SIP.js's
    [Session.invite] resolves once the re-INVITE has been sent and
    rejects when it cannot send it. *)
Inductive send := SendFails | Sent.

(** The final response to a re-INVITE that was sent.  SIP.js hands it
    to the request delegate later, after [invite()] has resolved. *)
Inductive reinvite := Accepted | Rejected.

Inductive result := Ok | Err (msg : string).

(** [pc.getReceivers().forEach(r => { if (r.track) r.track.enabled = b; })] *)
Definition toggle_receivers (b : bool) (rs : list (option track))
  : list (option track) :=
  map (option_map (set_enabled b)) rs.

(** The [pc.getSenders().forEach(...)] loop of the onAccept handlers:
    audio tracks (and, for a mixed track, an audio
    [data.AudioSourceTrack]) and video tracks get [enabled = b]. *)
Definition toggle_sender (b : bool) (ast : option track) (st : option track)
  : option track * option track :=
  match st with
  | None => (None, ast)
  | Some t =>
      match trackKind t with
      | Audio =>
          let ast' :=
            if isMixed t then
              match ast with
              | Some a => match trackKind a with
                          | Audio => Some (set_enabled b a)
                          | Video => ast
                          end
              | None => ast
              end
            else ast in
          (Some (set_enabled b t), ast')
      | Video => (Some (set_enabled b t), ast)
      end
  end.

Fixpoint toggle_senders (b : bool) (ast : option track)
    (ss : list (option track)) : list (option track) * option track :=
  match ss with
  | [] => ([], ast)
  | st :: ss' =>
      let (st', ast1) := toggle_sender b ast st in
      let (ss'', ast2) := toggle_senders b ast1 ss' in
      (st' :: ss'', ast2)
  end.

(** Body shared by the two onAccept handlers: [b = false] for hold,
    [b = true] for unhold. *)
Definition toggle_tracks (b : bool) (s : session) : session :=
  match peerConn s with
  | None => s
  | Some p =>
      let (ss, ast) := toggle_senders b (audioSourceTrack s) (senders p) in
      set_peer (Some (mkPeer (toggle_receivers b (receivers p)) ss)) ast s
  end.

Definition hold_onAccept (s : session) : session :=
  push_hold_log "hold" (set_isOnHold (Some true) (toggle_tracks false s)).

Definition resume_onAccept (s : session) : session :=
  push_hold_log "unhold" (set_isOnHold (Some false) (toggle_tracks true s)).

(** holdCall, given [this.currentSession] and whether its re-INVITE is
    sent; returns the session afterwards and whether the promise of
    holdCall resolves ([Ok], to [true]) or rejects ([Err]). *)
Definition holdCall (cur : option session) (sd : send)
  : option session * result :=
  match cur with
  | None => (None, Err "No active call to hold")
  | Some s =>
      match isOnHold s with
      | Some true => (Some s, Ok)
      | _ =>
          let s1 := set_isOnHold (Some true) s in
          match reinviteHold s1 with
          | None =>
              (* TypeError on [sessionDescriptionHandlerOptions.hold = true],
                 caught: [isOnHold = false], rethrown *)
              (Some (set_isOnHold (Some false) s1), Err "TypeError")
          | Some _ =>
              let s2 := set_reinviteHold true s1 in
              match sd with
              | SendFails => (Some (set_isOnHold (Some false) s2), Err "invite failed")
              | Sent => (Some s2, Ok)
              end
          end
      end
  end.

(** resumeCall, in the same form. *)
Definition resumeCall (cur : option session) (sd : send)
  : option session * result :=
  match cur with
  | None => (None, Err "No active call to resume")
  | Some s =>
      match isOnHold s with
      | Some false => (Some s, Ok)
      | _ =>
          let s1 := set_isOnHold (Some false) s in
          match reinviteHold s1 with
          | None => (Some (set_isOnHold (Some true) s1), Err "TypeError")
          | Some _ =>
              let s2 := set_reinviteHold false s1 in
              match sd with
              | SendFails => (Some (set_isOnHold (Some true) s2), Err "invite failed")
              | Sent => (Some s2, Ok)
              end
          end
      end
  end.

(** The request delegate holdCall installs, run on [this.currentSession]
    when the response arrives: the session afterwards, and the error
    the delegate throws, if any.  That error is thrown inside SIP.js's
    response handling, after holdCall has returned, so it never reaches
    holdCall's catch block or its caller.  With no current session the
    first write to [this.currentSession] is a TypeError. *)
Definition hold_response (r : reinvite) (cur : option session)
  : option session * option string :=
  match cur with
  | None => (None, Some "TypeError"%string)
  | Some s =>
      match r with
      | Accepted => (Some (hold_onAccept s), None)
      | Rejected => (Some (set_isOnHold (Some false) s),
                     Some "Failed to put call on hold"%string)
      end
  end.

(** The request delegate resumeCall installs, in the same form. *)
Definition resume_response (r : reinvite) (cur : option session)
  : option session * option string :=
  match cur with
  | None => (None, Some "TypeError"%string)
  | Some s =>
      match r with
      | Accepted => (Some (resume_onAccept s), None)
      | Rejected => (Some (set_isOnHold (Some true) s),
                     Some "Failed to take call off hold"%string)
      end
  end.

(** muteMicrophone: [this.localStream] is built in onCallEstablished
    from the live, enabled audio tracks of [pc.getSenders()], so muting
    sets [enabled = false] on those sender tracks. *)
Definition mute_sender (st : option track) : option track :=
  match st with
  | Some t => match trackKind t with
              | Audio => Some (set_enabled false t)
              | Video => st
              end
  | None => None
  end.

End HoldResume.

(** ** Indicator tones: playRingbackTone, playBusyTone, playRingTone,
     stopAllTones *)
Module Tones.

(** The two fields of an HTMLAudioElement the tone code writes. *)
Record audio_el := mkAudio {
  paused : bool;
  currentTime : nat
}.

(** [this.ringbackTone], [this.busyTone], [this.ringTone]: all three
    are created by initCallTones, called from the constructor. *)
Record tones := mkTones {
  ringbackTone : audio_el;
  busyTone : audio_el;
  ringTone : audio_el
}.

Inductive tone := Ringback | Busy | Ring.

Definition get (t : tone) (ts : tones) : audio_el :=
  match t with
  | Ringback => ringbackTone ts
  | Busy => busyTone ts
  | Ring => ringTone ts
  end.

Definition put (t : tone) (a : audio_el) (ts : tones) : tones :=
  match t with
  | Ringback => mkTones a (busyTone ts) (ringTone ts)
  | Busy => mkTones (ringbackTone ts) a (ringTone ts)
  | Ring => mkTones (ringbackTone ts) (busyTone ts) a
  end.

(** [el.pause(); el.currentTime = 0;] *)
Definition pause_rewind (a : audio_el) : audio_el := mkAudio true 0.

Definition stopAllTones (ts : tones) : tones :=
  mkTones (pause_rewind (ringbackTone ts)) (pause_rewind (busyTone ts))
          (pause_rewind (ringTone ts)).

(** [el.play().catch(...)]: the element starts playing, or play() is
    refused (autoplay policy, no source) and it stays paused. *)
Definition play_el (ok : bool) (a : audio_el) : audio_el :=
  mkAudio (negb ok) (currentTime a).

(** playRingbackTone / playBusyTone / playRingTone *)
Definition playTone (t : tone) (ok : bool) (ts : tones) : tones :=
  let ts' := stopAllTones ts in
  put t (play_el ok (get t ts')) ts'.

Definition playRingbackTone := playTone Ringback.
Definition playRingTone := playTone Ring.

(** What can happen to the three elements: one of the three play
    methods, stopAllTones, playback advancing, or a tone reaching its
    end (the busy tone does not loop). *)
Inductive op :=
| OPlay (t : tone) (ok : bool)
| OStopAll
| OAdvance (t : tone) (ms : nat)
| OEnded (t : tone).

Definition apply_op (o : op) (ts : tones) : tones :=
  match o with
  | OPlay t ok => playTone t ok ts
  | OStopAll => stopAllTones ts
  | OAdvance t ms =>
      let a := get t ts in
      if paused a then ts else put t (mkAudio false (currentTime a + ms)) ts
  | OEnded t => put t (mkAudio true (currentTime (get t ts))) ts
  end.

Fixpoint run_ops (os : list op) (ts : tones) : tones :=
  match os with
  | [] => ts
  | o :: os' => run_ops os' (apply_op o ts)
  end.

Definition playing (a : audio_el) : bool := negb (paused a).

(** Number of tones playing. *)
Definition n_playing (ts : tones) : nat :=
  (if playing (ringbackTone ts) then 1 else 0)
  + (if playing (busyTone ts) then 1 else 0)
  + (if playing (ringTone ts) then 1 else 0).

Definition all_stopped : tones :=
  mkTones (mkAudio true 0) (mkAudio true 0) (mkAudio true 0).

End Tones.

(** ** Outbound call setup: makeCall *)
Module Call.
Import Tones.

(** [haystack.includes(needle)] *)
Fixpoint includes (haystack needle : string) : bool :=
  String.prefix needle haystack
  || match haystack with
     | EmptyString => false
     | String _ rest => includes rest needle
     end.



(** The client fields makeCall touches. *)
Record client := mkClient {
  isRegistered : bool;
  callState : string;
  tones_of : tones;
  currentSessionSet : bool
}.

Inductive result := Ok | Err (msg : string).



(** formatError, for the plain [Error]s makeCall throws. *)
Definition formatError (msg : string) : string :=
  if includes msg "HTTPS" then msg
  else match msg with EmptyString => "An error occurred" | _ => msg end.



End Call.

(** ** Blind and attended transfer: transferCall, attendedTransfer,
     completeAttendedTransfer *)
Module Transfer.

(** The object pushed on [session.data.transfer]. *)
Record transfer_record := mkRecord {
  ttype : string;
  tto : string;
  transferTime : nat;
  disposition : string;
  dispositionTime : nat;
  acceptComplete : option bool;   (* accept.complete, null = None *)
  acceptEventTime : option nat;   (* accept.eventTime *)
  acceptDisposition : string      (* accept.disposition *)
}.

(** The fields of a SIP.js session the transfer code uses.  [data] is
    [session.data]: [None] when undefined, otherwise the value of its
    [transfer] field ([None] when undefined). *)
Record session := mkSession {
  sipState : string;
  isOnHold : option bool;
  data : option (option (list transfer_record));
  byeSent : bool
}.

Definition transfers (s : session) : list transfer_record :=
  match data s with Some (Some l) => l | _ => [] end.

Definition set_data (d : option (option (list transfer_record))) (s : session)
  : session := mkSession (sipState s) (isOnHold s) d (byeSent s).
Definition set_bye (s : session) : session :=
  mkSession (sipState s) (isOnHold s) (data s) true.

(** Target of [session.refer(...)]: a URI, or a session (attended). *)
Inductive refer_to := ReferUri (uri : string) | ReferSession (k : nat).

(** Request delegates waiting for a response; [transferId] is the
    JavaScript number captured by the closure (it is [-1] when
    completeAttendedTransfer finds an empty list). *)
Inductive delegate :=
| DBlindRefer (transferId : Z)
| DAttendedInvite (transferId : Z)
| DAttendedRefer (transferId : Z).

(** [sessions] holds every session object the client has referenced,
    in creation order; [current] is [this.currentSession]; [refers]
    and [invites] are the requests sent over the wire. *)
Record client := mkClient {
  sessions : list session;
  current : option nat;
  host : string;
  now : nat;
  refers : list (nat * refer_to);
  invites : list string;
  pending : list delegate
}.

Inductive result := Ok | OkSession (k : nat) | Err (msg : string).

Fixpoint update_nth {A} (n : nat) (f : A -> A) (l : list A) : list A :=
  match n, l with
  | _, [] => []
  | O, x :: t => f x :: t
  | S n', x :: t => x :: update_nth n' f t
  end.

Fixpoint remove_nth {A} (n : nat) (l : list A) : list A :=
  match n, l with
  | _, [] => []
  | O, _ :: t => t
  | S n', x :: t => x :: remove_nth n' t
  end.

(** [arr[i]] for a JavaScript number [i]. *)
Definition nth_z {A} (i : Z) (l : list A) : option A :=
  if (i <? 0)%Z then None else nth_error l (Z.to_nat i).

Definition update_z {A} (i : Z) (f : A -> A) (l : list A) : list A :=
  if (i <? 0)%Z then l else update_nth (Z.to_nat i) f l.

(** [extension.replace(/#/g, "%23")] *)
Fixpoint escape_hash (s : string) : string :=
  match s with
  | EmptyString => EmptyString
  | String ch rest =>
      if Ascii.eqb ch "#"%char then "%23" ++ escape_hash rest
      else String ch (escape_hash rest)
  end.

(** [`sip:${extension.replace(/#/g, "%23")}@${sipDomain}`] *)
Definition transfer_target (ext host : string) : string :=
  "sip:" ++ escape_hash ext ++ "@" ++ host.

Definition with_sessions (ss : list session) (c : client) : client :=
  mkClient ss (current c) (host c) (now c) (refers c) (invites c) (pending c).

Definition update_session (j : nat) (f : session -> session) (c : client)
  : client := with_sessions (update_nth j f (sessions c)) c.

(** [if (!session.data) session.data = {};] followed by
    [if (!session.data.transfer) session.data.transfer = [];] is split
    in two here because the target is computed in between. *)
Definition init_data (s : session) : session :=
  match data s with None => set_data (Some None) s | Some _ => s end.
Definition init_transfer (s : session) : session :=
  match data s with
  | Some None | None => set_data (Some (Some [])) s
  | Some (Some _) => s
  end.

Definition push_record (r : transfer_record) (s : session) : session :=
  set_data (Some (Some (transfers s ++ [r]))) s.

(** Common prefix of transferCall and attendedTransfer: the two checks,
    data initialisation, and the target, or the error thrown. *)
Definition transfer_prologue (ext : option string) (c : client)
  : (nat * client * string) + (client * string) :=
  match current c with
  | None => inr (c, "No active call to transfer"%string)
  | Some j =>
      match nth_error (sessions c) j with
      | None => inr (c, "No active call to transfer"%string)
      | Some s =>
          if negb (String.eqb (sipState s) "Established") then
            inr (c, "Call must be established to transfer"%string)
          else
            let c1 := update_session j init_data c in
            match ext with
            | None => inr (c1, "TypeError: extension is undefined"%string)
            | Some e => inl (j, c1, transfer_target e (host c))
            end
      end
  end.

Definition new_record (ty ext disp : string) (t : nat) : transfer_record :=
  mkRecord ty ext t disp t None None "".

(** transferCall(extension).  [uri_ok] says whether
    [SIP.UserAgent.makeURI(transferTarget)] returns a URI; SIP.js parses
    the target with its SIP-URI grammar and returns [undefined] when it
    does not parse.  [session.refer(undefined, ...)] then throws a
    TypeError before sending anything, and transferCall rethrows it; the
    transfer record has been pushed by then. *)
Definition transferCall (uri_ok : bool) (ext : option string) (c : client)
  : client * result :=
  match transfer_prologue ext c with
  | inr (c', msg) => (c', Err msg)
  | inl (j, c1, target) =>
      let e := match ext with Some e => e | None => EmptyString end in
      let c2 := update_session j
                  (fun s => push_record (new_record "Blind" e "refer" (now c1))
                              (init_transfer s)) c1 in
      let tid := match nth_error (sessions c2) j with
                 | Some s => (Z.of_nat (length (transfers s)) - 1)%Z
                 | None => (-1)%Z
                 end in
      if uri_ok then
        (mkClient (sessions c2) (current c2) (host c2) (now c2)
           (refers c2 ++ [(j, ReferUri target)]) (invites c2)
           (pending c2 ++ [DBlindRefer tid]), Ok)
      else (c2, Err "TypeError: refer target is undefined")
  end.

(** attendedTransfer(extension): the consultation leg is a new session
    object with [data = {}]; its INVITE is sent.  When
    [SIP.UserAgent.makeURI] returns [undefined] ([uri_ok] false),
    [new SIP.Inviter(this.userAgent, undefined, ...)] throws a TypeError
    and attendedTransfer rethrows it, after the record was pushed. *)
Definition attendedTransfer (uri_ok : bool) (ext : option string) (c : client)
  : client * result :=
  match transfer_prologue ext c with
  | inr (c', msg) => (c', Err msg)
  | inl (j, c1, target) =>
      let e := match ext with Some e => e | None => EmptyString end in
      let c2 := update_session j
                  (fun s => push_record (new_record "Attended" e "invite" (now c1))
                              (init_transfer s)) c1 in
      let tid := match nth_error (sessions c2) j with
                 | Some s => (Z.of_nat (length (transfers s)) - 1)%Z
                 | None => (-1)%Z
                 end in
      let k := length (sessions c2) in
      if uri_ok then
        (mkClient (sessions c2 ++ [mkSession "Initial" None (Some None) false])
           (current c2) (host c2) (now c2) (refers c2)
           (invites c2 ++ [target]) (pending c2 ++ [DAttendedInvite tid]),
         OkSession k)
      else (c2, Err "TypeError: Inviter target is undefined")
  end.

(** completeAttendedTransfer(newSession) *)
Definition completeAttendedTransfer (k : option nat) (c : client)
  : client * result :=
  match current c, k with
  | Some j, Some k' =>
      match nth_error (sessions c) j with
      | Some s =>
          match data s with
          | Some (Some l) =>
              let tid := (Z.of_nat (length l) - 1)%Z in
              (mkClient (sessions c) (current c) (host c) (now c)
                 (refers c ++ [(j, ReferSession k')]) (invites c)
                 (pending c ++ [DAttendedRefer tid]), Ok)
          | _ => (c, Err "TypeError: data.transfer is undefined")
          end
      | None => (c, Err "No active sessions for transfer completion")
      end
  | _, _ => (c, Err "No active sessions for transfer completion")
  end.

(** Responses delivered to a pending request delegate (for the
    consultation INVITE, [RBye] is the new session's [onBye]). *)
Inductive response :=
| RTrying | RProgress | RAccept (reasonPhrase : string)
| RReject (reasonPhrase : string) | RBye.

(** [this.currentSession.data.transfer[transferId]] updated by [f]; a
    null current session, an undefined [data] or [transfer], or a
    missing record is a TypeError thrown inside the delegate, which
    then has no effect on the modelled fields. *)
Definition with_current_record (tid : Z) (f : transfer_record -> transfer_record)
    (then_bye : bool) (c : client) : client :=
  match current c with
  | None => c
  | Some j =>
      match nth_error (sessions c) j with
      | Some s =>
          match data s with
          | Some (Some l) =>
              match nth_z tid l with
              | Some _ =>
                  update_session j
                    (fun s0 =>
                       let s1 := set_data (Some (Some (update_z tid f l))) s0 in
                       if then_bye then set_bye s1 else s1) c
              | None => c
              end
          | _ => c
          end
      | None => c
      end
  end.

Definition set_accept (b : bool) (reason : string) (t : nat)
    (r : transfer_record) : transfer_record :=
  mkRecord (ttype r) (tto r) (transferTime r) (disposition r)
    (dispositionTime r) (Some b) (Some t) reason.

Definition set_disposition (d : string) (t : nat) (r : transfer_record)
  : transfer_record :=
  mkRecord (ttype r) (tto r) (transferTime r) d t
    (acceptComplete r) (acceptEventTime r) (acceptDisposition r).

(** The delegate's handler for a response, and whether the delegate
    stays pending afterwards. *)
Definition handle (d : delegate) (r : response) (c : client) : client * bool :=
  match d, r with
  | DBlindRefer tid, RAccept rp | DAttendedRefer tid, RAccept rp =>
      (with_current_record tid (set_accept true rp (now c)) true c, false)
  | DBlindRefer tid, RReject rp | DAttendedRefer tid, RReject rp =>
      (with_current_record tid (set_accept false rp (now c)) false c, false)
  | DAttendedInvite tid, RTrying =>
      (with_current_record tid (set_disposition "trying" (now c)) false c, true)
  | DAttendedInvite tid, RProgress =>
      (with_current_record tid (set_disposition "progress" (now c)) false c, true)
  | DAttendedInvite tid, RAccept _ =>
      (with_current_record tid (set_disposition "accepted" (now c)) false c, true)
  | DAttendedInvite tid, RReject rp =>
      (with_current_record tid (set_disposition rp (now c)) false c, false)
  | DAttendedInvite tid, RBye =>
      (with_current_record tid (set_disposition "bye" (now c)) false c, false)
  | _, _ => (c, true)
  end.

Inductive event :=
| ETransfer (ext : option string) (uri_ok : bool)   (* transferCall *)
| EAttended (ext : option string) (uri_ok : bool)   (* attendedTransfer *)
| ECompleteAttended (k : option nat)     (* completeAttendedTransfer *)
| EResponse (i : nat) (r : response)     (* i-th pending delegate *)
| EIncoming                              (* handleIncomingCall *)
| ETerminated                            (* currentSession = null *)
| ETick (ms : nat).

Definition step (e : event) (c : client) : client :=
  match e with
  | ETransfer ext ok => fst (transferCall ok ext c)
  | EAttended ext ok => fst (attendedTransfer ok ext c)
  | ECompleteAttended k => fst (completeAttendedTransfer k c)
  | EResponse i r =>
      match nth_error (pending c) i with
      | None => c
      | Some d =>
          let (c', keep) := handle d r c in
          if keep then c'
          else mkClient (sessions c') (current c') (host c') (now c')
                 (refers c') (invites c') (remove_nth i (pending c'))
      end
  | EIncoming =>
      (* [this.currentSession = invitation]: a fresh SIP.js session *)
      mkClient (sessions c ++ [mkSession "Initial" None None false])
        (Some (length (sessions c))) (host c) (now c) (refers c)
        (invites c) (pending c)
  | ETerminated =>
      mkClient (sessions c) None (host c) (now c) (refers c) (invites c)
        (pending c)
  | ETick ms =>
      mkClient (sessions c) (current c) (host c) (now c + ms) (refers c)
        (invites c) (pending c)
  end.

Fixpoint run (es : list event) (c : client) : client :=
  match es with
  | [] => c
  | e :: es' => run es' (step e c)
  end.

(** A client whose current call is established and has no data yet. *)
Definition established_client (h : string) : client :=
  mkClient [mkSession "Established" None None false] (Some 0) h 0 [] [] [].

End Transfer.

(** ** Retry policy: handleError, scheduleRetry, retry *)
Module Retry.

Record client := mkClient {
  retryCount : nat;
  maxRetries : nat;
  retryDelay : nat;
  timers : list nat      (* delays of the setTimeout calls made *)
}.

(** The values set by the constructor. *)
Definition initial : client := mkClient 0 3 1000 [].

(** scheduleRetry(context) *)
Definition scheduleRetry (c : client) : client :=
  if retryCount c <? maxRetries c then
    let n := S (retryCount c) in
    mkClient n (maxRetries c) (retryDelay c)
      (timers c ++ [retryDelay c * 2 ^ (n - 1)])
  else mkClient 0 (maxRetries c) (retryDelay c) (timers c).

(** handleError(error, context): the critical-error reset (cleanup also
    sets retryCount to 0) and the retry for retryable errors. *)
Definition handleError (critical retryable : bool) (c : client) : client :=
  let c1 := if critical then mkClient 0 (maxRetries c) (retryDelay c) (timers c)
            else c in
  if retryable then scheduleRetry c1 else c1.

(** A chain of retries whose operation keeps failing with a retryable,
    non-critical error: each failure goes through handleError. *)
Fixpoint fail_n (n : nat) (c : client) : client :=
  match n with
  | O => c
  | S n' => fail_n n' (handleError false true c)
  end.

End Retry.

(** ** Call duration: getCallDuration and the duration saveRecording
     sends with the recording *)
Module Duration.
Local Open Scope Z_scope.

(** [this.callStartTime] as a time in milliseconds ([Date.now()], or a
    [Date], which subtracts the same way); [None] for null.  A time is
    truthy unless it is 0. *)
Definition getCallDuration (callStartTime : option Z) (now : Z) : Z :=
  match callStartTime with
  | Some t => if Z.eqb t 0 then 0 else (now - t) / 1000
  | None => 0
  end.

(** [this.recordedChunks.reduce((sum, chunk) => sum + chunk.size, 0)] *)
Definition total_size (chunks : list nat) : Z :=
  fold_left (fun sum size => sum + Z.of_nat size) chunks 0.

(** The [duration] field saveRecording appends to the form: the call
    duration, or, when that is 0, an estimate from the recording size
    of at least one second. *)
Definition upload_duration (callStartTime : option Z) (now : Z)
    (chunks : list nat) : Z :=
  let duration := getCallDuration callStartTime now in
  if (duration =? 0) && (0 <? length chunks)%nat
  then Z.max 1 (total_size chunks / 10000)
  else duration.

End Duration.

(** ** SIP Call-ID bookkeeping: makeCall, handleIncomingCall,
     onCallEstablished, onCallTerminated, updateCallDuration *)
Module CallId.

(** A value read from a SIP.js object or a header: [None] for
    [undefined] and [null], [Some s] for a string. *)
Definition jstr := option string.

(** Its truthiness: a non-empty string. *)
Definition truthy (v : jstr) : bool :=
  match v with Some (String _ _) => true | _ => false end.

(** [a || b] *)
Definition js_or (a b : jstr) : jstr := if truthy a then a else b.

(** [a === b] on two such values. *)
Definition jstr_eqb (a b : jstr) : bool :=
  match a, b with
  | Some x, Some y => String.eqb x y
  | None, None => true
  | _, _ => false
  end.

(** The characters [String.prototype.trim] removes that a Latin-1
    string can hold: tab, line feed, vertical tab, form feed, carriage
    return, space and no-break space. *)
Definition is_ws (c : ascii) : bool :=
  let n := nat_of_ascii c in
  (n =? 9) || (n =? 10) || (n =? 11) || (n =? 12) || (n =? 13)
  || (n =? 32) || (n =? 160).

Fixpoint trim_start (s : string) : string :=
  match s with
  | String c r => if is_ws c then trim_start r else s
  | EmptyString => EmptyString
  end.

Definition rev_str (s : string) : string :=
  string_of_list_ascii (rev (list_ascii_of_string s)).

(** [s.trim()] *)
Definition trim (s : string) : string := rev_str (trim_start (rev_str s)).

(** [if (callIdHeader) sipCallId = callIdHeader.trim();] *)
Definition trimmed_if_truthy (h : jstr) (otherwise : jstr) : jstr :=
  match h with
  | Some s => if truthy h then Some (trim s) else otherwise
  | None => otherwise
  end.

(** The Call-ID lookup of makeCall once [inviter.invite()] resolved:
    [header] is [inviter.request.message.getHeader('Call-ID')] ([None]
    also when [inviter.request] or its [message] is missing),
    [reqCallId] is [inviter.request.callId] and [id] is [inviter.id]. *)
Definition makeCall_callId (header reqCallId id : jstr) : jstr :=
  let sipCallId := if truthy header then header else None in
  if negb (truthy sipCallId) then
    if truthy reqCallId then reqCallId
    else if truthy id then id
    else sipCallId
  else sipCallId.

(** The Call-ID lookup of handleIncomingCall: [h1] is read from
    [invitation.incomingInviteRequest.message], [h2] from
    [invitation.request.message] ([None] also when the object is
    missing); both are trimmed. *)
Definition incoming_callId (h1 h2 reqCallId id : jstr) : jstr :=
  let s1 := trimmed_if_truthy h1 None in
  let s2 := if negb (truthy s1) then trimmed_if_truthy h2 s1 else s1 in
  if negb (truthy s2) then
    if truthy reqCallId then reqCallId
    else if truthy id then id
    else s2
  else s2.

(** [if (sipCallId) { this.sipCallId = sipCallId; ... }], the last step
    of both lookups: the new value of [this.sipCallId]. *)
Definition store (found stored : jstr) : jstr :=
  if truthy found then found else stored.

(** What the established session offers in onCallEstablished:
    [session.dialog && session.dialog.request] is falsy, or it holds a
    [message] whose Call-ID header is [h], or it holds no [message], so
    that [message.getHeader] throws a TypeError, caught by the
    method. *)
Inductive dialog_request :=
| NoDialogRequest
| DialogHeader (h : jstr)
| DialogNoMessage.

(** Which arm of the final [if (...) {...} else if (...) {...}] ran. *)
Inductive branch := Updated | ConfirmedOnly | Unchanged.

(** The confirmed Call-ID step of onCallEstablished.  [h2] is the
    header of [session.request.message], [sid] is [session.id],
    [stored] is [this.sipCallId]; [odoo] says that [this.odooCallId],
    [this.voipService] and [voipService.updateCallSipId] are truthy.
    Result: the new [this.sipCallId], whether [updateCallSipId] was
    called, and the arm that ran. *)
Definition onCallEstablished_callId (dr : dialog_request) (h2 sid stored : jstr)
    (odoo : bool) : jstr * bool * branch :=
  match dr with
  | DialogNoMessage => (stored, false, Unchanged)
  | _ =>
      let c1 := match dr with
                | DialogHeader h => trimmed_if_truthy h None
                | _ => None
                end in
      let c2 := if negb (truthy c1) then trimmed_if_truthy h2 c1 else c1 in
      let c3 := if negb (truthy c2) then js_or (js_or stored sid) None else c2 in
      if truthy c3 && negb (jstr_eqb c3 stored) then (c3, odoo, Updated)
      else if truthy c3 && negb (truthy stored) then (c3, false, ConfirmedOnly)
      else (stored, false, Unchanged)
  end.

(** Which methods [this.voipService] has. *)
Record service := mkService {
  has_updateCallDuration : bool;
  has_hangupCall : bool
}.

(** The calls made on voipService. *)
Inductive rpc :=
| RpcUpdateCallDuration (odooCallId : Z) (duration : option Z)
| RpcHangupCall (reason : string) (sipCallId : jstr).

(** updateCallDuration(duration) called with the argument list [args]:
    the parameter [duration] is the first argument ([undefined] when
    there is none, and [undefined <= 0] is false).  [odooCallId] is
    [this.odooCallId] ([None] for null). *)
Definition updateCallDuration (svc : service) (odooCallId : option Z)
    (args : list Z) : list rpc :=
  let duration := hd_error args in
  match odooCallId with
  | None => []
  | Some oid =>
      if Z.eqb oid 0 then []
      else if match duration with Some d => Z.leb d 0 | None => false end then []
      else if has_updateCallDuration svc then [RpcUpdateCallDuration oid duration]
      else []
  end.

(** onCallTerminated(session) up to the notifications.  [header] is
    [session.request.message.getHeader('Call-ID')] ([None] also without
    [session.request] or its [message]; the guard makes the [catch]
    unreachable), [sid] is [session.id], [stored] is [this.sipCallId].
    The duration is [this.getCallDuration()]; the call
    [this.updateCallDuration(this.odooCallId, duration)] passes two
    arguments.  Result: the new [this.sipCallId] and the calls made on
    voipService, in order. *)
Definition onCallTerminated (svc : service) (odooCallId : option Z)
    (callStartTime : option Z) (now : Z) (header sid stored : jstr)
    : jstr * list rpc :=
  let duration := Duration.getCallDuration callStartTime now in
  let s1 := if truthy header then header else None in
  let s2 := if negb (truthy s1) then js_or (js_or stored sid) None else s1 in
  let stored' := if truthy s2 && negb (truthy stored) then s2 else stored in
  let by_sip_id :=
    if truthy s2 && has_hangupCall svc then [RpcHangupCall "normal" s2] else [] in
  let rpcs :=
    match odooCallId with
    | Some oid =>
        if negb (Z.eqb oid 0) && has_updateCallDuration svc then
          updateCallDuration svc odooCallId [oid; duration]
          ++ (if has_hangupCall svc then [RpcHangupCall "normal" s2] else [])
        else by_sip_id
    | None => by_sip_id
    end in
  (stored', rpcs).

End CallId.

(** ** Recording stream chosen when the call is established:
     onCallEstablished, muteMicrophone, unmuteMicrophone *)
Module Establish.

Inductive kind := Audio | Video.

(** A MediaStreamTrack: [live] is [readyState === 'live']. *)
Record track := mkTrack {
  trackId : nat;
  kind_of : kind;
  enabled : bool;
  live : bool
}.

Definition is_audio (t : track) : bool :=
  match kind_of t with Audio => true | Video => false end.

(** [.filter(x => x.track && x.track.kind === 'audio').map(x => x.track)]
    on the senders or receivers ([None] for a null [track]). *)
Fixpoint audio_tracks (l : list (option track)) : list track :=
  match l with
  | [] => []
  | Some t :: r => if is_audio t then t :: audio_tracks r else audio_tracks r
  | None :: r => audio_tracks r
  end.

(** [... .filter(track => track.enabled && track.readyState === 'live')] *)
Definition usable (l : list (option track)) : list track :=
  filter (fun t => enabled t && live t) (audio_tracks l).

(** The recording stream: the destination of an AudioContext mixing a
    local and a remote MediaStream, or a MediaStream of tracks. *)
Inductive stream :=
| Mixed (local remote : list track)
| Plain (ts : list track).

(** [recordingStream.getTracks().length]: a MediaStreamAudioDestination
    stream has one track. *)
Definition track_count (s : stream) : nat :=
  match s with Mixed _ _ => 1 | Plain ts => length ts end.

(** The tracks the recording is made of. *)
Definition sources (s : stream) : list track :=
  match s with Mixed l r => l ++ r | Plain ts => ts end.

(** The outcomes the method depends on besides the peer connection:
    whether [new AudioContext()] and the two stream sources succeed,
    [this.config.user.enable_recording], and, when the 300 ms and the
    500 ms timers fire, whether [this.currentSession === session] still
    holds and whether some track of the stream is still live. *)
Record env := mkEnv {
  mix_ok : bool;
  enable_recording : bool;
  current_300 : bool;
  live_300 : bool;
  current_800 : bool;
  live_800 : bool
}.

(** [recordingStream] as built by onCallEstablished from the senders
    and receivers of the peer connection ([None] for null). *)
Definition recording_stream (e : env) (senders receivers : list (option track))
    : option stream :=
  let l := usable senders in
  let r := usable receivers in
  let hasLocalStream := (0 <? length l)%nat in
  let hasRemoteStream := (0 <? length r)%nat in
  if hasLocalStream && hasRemoteStream then
    if mix_ok e then Some (Mixed l r) else Some (Plain l)
  else if hasLocalStream then Some (Plain l)
  else if hasRemoteStream then Some (Plain r)
  else None.

(** The new [this.localStream]: set only when local tracks were found. *)
Definition established_localStream (senders : list (option track))
    (old : option (list track)) : option (list track) :=
  if (0 <? length (usable senders))%nat then Some (usable senders) else old.

(** The stream startRecording is called with, by the 300 ms timer or by
    the 500 ms retry it schedules; [None] when it is not called.
    [pc] is [session.sessionDescriptionHandler.peerConnection] with its
    senders and receivers ([None] when either is missing). *)
Definition recording_started (e : env)
    (pc : option (list (option track) * list (option track))) : option stream :=
  match pc with
  | None => None
  | Some (senders, receivers) =>
      match recording_stream e senders receivers with
      | None => None
      | Some s =>
          if enable_recording e && (0 <? track_count s)%nat then
            if current_300 e && (0 <? track_count s)%nat then
              if live_300 e then Some s
              else if current_800 e && live_800 e then Some s
              else None
            else None
          else None
      end
  end.

(** [track.kind === 'audio'] tracks of [this.localStream] get
    [enabled = b]. *)
Definition set_audio_enabled (b : bool) (ts : list track) : list track :=
  map (fun t => if is_audio t then mkTrack (trackId t) (kind_of t) b (live t)
                else t) ts.

(** muteMicrophone(): the new [this.localStream] and the result. *)
Definition muteMicrophone (ls : option (list track)) : option (list track) * bool :=
  match ls with
  | Some ts => (Some (set_audio_enabled false ts), true)
  | None => (None, false)
  end.

(** unmuteMicrophone() *)
Definition unmuteMicrophone (ls : option (list track)) : option (list track) * bool :=
  match ls with
  | Some ts => (Some (set_audio_enabled true ts), true)
  | None => (None, false)
  end.

End Establish.

(** ** Error messages: formatError, and the message initialize throws *)
Module Errors.

(** An Error object: [name] and [message] ([""] when missing). *)
Record error := mkError { name : string; message : string }.

(** formatError(error) *)
Definition formatError (e : error) : error :=
  if String.eqb (name e) "NotAllowedError" then
    mkError "Error" "Microphone access denied. Please allow microphone access."
  else if String.eqb (name e) "NotFoundError" then
    mkError "Error" "No microphone found. Please connect a microphone."
  else if Call.includes (message e) "HTTPS" then e
  else mkError "Error"
         (match message e with EmptyString => "An error occurred" | m => m end).

End Errors.

(** ** Hold-music source: getHoldMusicUrl, createDefaultHoldMusic,
     createHoldMusicFromFile, createHoldMusicStream *)
Module HoldMusic.

(** An entry of [music_list]: its [id] and its [url] (the empty string
    stands for a missing or empty url, both falsy). *)
Record music := mkMusic { music_id : Z; url : string }.

(** The object [result = data.result || data] reads: its [success]
    flag and its [music_list] ([None] when missing). *)
Record listing := mkListing {
  success : bool;
  music_list : option (list music)
}.

(** The answer to [fetch('/voip/hold_music/list', ...)] followed by
    [response.json()]: [Body result data] is a JSON body whose [result]
    member is [result] ([None] when missing) and whose top level is
    [data]. *)
Inductive list_response :=
| FetchRejects
| NotOk
| BadJson
| Body (result : option listing) (data : listing).

(** [data.result || data] *)
Definition result_of (r : list_response) : option listing :=
  match r with
  | Body (Some l) _ => Some l
  | Body None d => Some d
  | _ => None
  end.

(** [music_list.find(m => m.id === musicId)] *)
Fixpoint find_music (musicId : Z) (l : list music) : option music :=
  match l with
  | [] => None
  | m :: t => if Z.eqb (music_id m) musicId then Some m else find_music musicId t
  end.

Definition is_file_url (u : string) : bool :=
  Call.includes u "/voip_webrtc_freepbx/hold_music/file/"
  || Call.includes u "/voip/hold_music/file/".

Definition fallback_url : string :=
  "data:audio/wav;base64,UklGRigAAABXQVZFZm10IBAAAAABAAEAQB8AAEAfAAABAAgAZGF0YQAAAAA=".

(** createDefaultHoldMusic: [b64] is [arrayBufferToBase64] of the WAV
    encoded from the generated buffer, or [None] when building it
    throws and the catch block returns the constant. *)
Definition createDefaultHoldMusic (b64 : option string) : string :=
  match b64 with
  | Some b => "data:audio/wav;base64," ++ b
  | None => fallback_url
  end.

(** getHoldMusicUrl(musicId): every error of the fetch is caught and
    leads to the default music. *)
Definition getHoldMusicUrl (r : list_response) (musicId : Z)
    (b64 : option string) : string :=
  match result_of r with
  | Some res =>
      if success res then
        match music_list res with
        | Some (m0 :: rest) =>
            let music :=
              match find_music musicId (m0 :: rest) with
              | Some m => m
              | None => m0
              end in
            if negb (String.eqb (url music) "") && is_file_url (url music)
            then url music
            else createDefaultHoldMusic b64
        | _ => createDefaultHoldMusic b64
        end
      else createDefaultHoldMusic b64
  | None => createDefaultHoldMusic b64
  end.

(** The stream a hold-music loader resolves to. *)
Inductive hold_stream :=
| FileStream (u : string)      (* createHoldMusicFromFile, real file *)
| DataUrlStream (u : string)   (* createHoldMusicFromDataUrl *)
| ToneStream.                  (* createHoldMusicTone *)

(** createHoldMusicFromFile(musicUrl): [loads] says whether the audio
    context, the element load (within its timeout) and the graph set-up
    succeed; otherwise the promise rejects ([None]). *)
Definition createHoldMusicFromFile (musicUrl : string) (loads : bool)
    : option hold_stream :=
  if String.prefix "data:audio/wav" musicUrl then
    if loads then Some (DataUrlStream musicUrl) else None
  else if loads then Some (FileStream musicUrl) else None.

Definition createHoldMusicTone (ok : bool) : option hold_stream :=
  if ok then Some ToneStream else None.

(** The outside world of one createHoldMusicStream() call: the two
    answers of the list endpoint (before and after
    cleanupCorruptedMusic, which catches all its errors), the default
    music each getHoldMusicUrl would build, whether each file loads,
    and whether the tone generator works. *)
Record env := mkEnv {
  list1 : list_response; b64_1 : option string; load1 : bool;
  list2 : list_response; b64_2 : option string; load2 : bool;
  tone_ok : bool
}.

(** [musicUrl && !musicUrl.includes('data:audio/wav;base64')] *)
Definition real_music (u : string) : bool :=
  negb (String.eqb u "") && negb (Call.includes u "data:audio/wav;base64").

(** createHoldMusicStream(): [None] when the returned promise rejects. *)
Definition createHoldMusicStream (e : env) : option hold_stream :=
  let musicUrl := getHoldMusicUrl (list1 e) 1 (b64_1 e) in
  if real_music musicUrl then
    match createHoldMusicFromFile musicUrl (load1 e) with
    | Some s => Some s
    | None =>
        let newMusicUrl := getHoldMusicUrl (list2 e) 1 (b64_2 e) in
        if real_music newMusicUrl
        then createHoldMusicFromFile newMusicUrl (load2 e)
        else createHoldMusicTone (tone_ok e)
    end
  else createHoldMusicTone (tone_ok e).

End HoldMusic.

(** ** WAV encoding: encodeWAV and its use by createDefaultHoldMusic *)
Module Wav.

(** The bytes [setUint8], [setUint16], [setUint32] and [setInt16] store
    with [littleEndian = true] for the (integral) value [v]: [v] modulo
    [2^(8n)], low byte first. *)
Fixpoint le_bytes (n : nat) (v : Z) : list Z :=
  match n with
  | O => []
  | S n' => (v mod 256)%Z :: le_bytes n' (v / 256)%Z
  end.

(** One byte store into the [ArrayBuffer] (every offset encodeWAV uses
    is in range). *)
Fixpoint set_nth (k : nat) (x : Z) (l : list Z) : list Z :=
  match l, k with
  | [], _ => []
  | _ :: t, O => x :: t
  | h :: t, S k' => h :: set_nth k' x t
  end.

Fixpoint write (off : nat) (bs : list Z) (view : list Z) : list Z :=
  match bs with
  | [] => view
  | b :: bs' => write (S off) bs' (set_nth off b view)
  end.

(** [string.charCodeAt(i)] for each character. *)
Definition char_codes (s : string) : list Z :=
  map (fun c => Z.of_nat (nat_of_ascii c)) (list_ascii_of_string s).

(** writeString(offset, string) *)
Definition writeString (off : nat) (s : string) (view : list Z) : list Z :=
  write off (char_codes s) view.

(** What encodeWAV reads of its argument: [buffer.length] and
    [buffer[i]], [None] when [i] is not a property of the object (the
    value is then [undefined]). *)
Record audio_buffer (N : Type) := mkBuffer {
  blength : nat;
  bindex : nat -> option N
}.
Arguments mkBuffer {N}.
Arguments blength {N}.
Arguments bindex {N}.

(** An [AudioBuffer] of [n] frames: it has a [length] but no indexed
    properties (its samples are reached through getChannelData). *)
Definition web_audio_buffer {N : Type} (n : nat) : audio_buffer N :=
  mkBuffer n (fun _ => None).

Section Encode.

Variable N : Type.

(** [Math.max(-1, Math.min(1, x))], scaled by [0x8000] below zero and
    [0x7FFF] otherwise, then truncated by setInt16, for a number [x]. *)
Variable pcm16 : N -> Z.

(** For [undefined], [Math.min(1, undefined)] and then [Math.max] are
    [NaN]; [NaN < 0] is false, [NaN * 0x7FFF] is [NaN], and setInt16
    stores [NaN] as 0. *)
Definition sample_of (x : option N) : Z :=
  match x with
  | Some v => pcm16 v
  | None => 0%Z
  end.

(** The sample loop, from index [i] for [n] more samples, at [offset]. *)
Fixpoint write_samples (b : audio_buffer N) (i n offset : nat)
    (view : list Z) : list Z :=
  match n with
  | O => view
  | S n' =>
      write_samples b (S i) n' (offset + 2)
        (write offset (le_bytes 2 (sample_of (bindex b i))) view)
  end.

(** encodeWAV(buffer): the bytes of the returned ArrayBuffer. *)
Definition encodeWAV (b : audio_buffer N) : list Z :=
  let length := blength b in
  let view := repeat 0%Z (44 + length * 2) in
  let view := writeString 0 "RIFF" view in
  let view := write 4 (le_bytes 4 (36 + Z.of_nat length * 2)) view in
  let view := writeString 8 "WAVE" view in
  let view := writeString 12 "fmt " view in
  let view := write 16 (le_bytes 4 16) view in
  let view := write 20 (le_bytes 2 1) view in
  let view := write 22 (le_bytes 2 1) view in
  let view := write 24 (le_bytes 4 44100) view in
  let view := write 28 (le_bytes 4 88200) view in
  let view := write 32 (le_bytes 2 2) view in
  let view := write 34 (le_bytes 2 16) view in
  let view := writeString 36 "data" view in
  let view := write 40 (le_bytes 4 (Z.of_nat length * 2)) view in
  write_samples b 0 length 44 view.

End Encode.

Arguments encodeWAV {N}.
Arguments write_samples {N}.
Arguments sample_of {N}.

(** createDefaultHoldMusic: the WAV bytes it encodes, for an audio
    context of sample rate [sampleRate]; the melody is written into
    [getChannelData(0)], which encodeWAV does not read. *)
Definition default_hold_music_wav {N : Type} (pcm16 : N -> Z)
    (sampleRate : nat) : list Z :=
  encodeWAV pcm16 (web_audio_buffer (sampleRate * 30)).

(** Reading an unsigned little-endian field of [k] bytes at [off], as a
    WAV parser does. *)
Fixpoint decode (bs : list Z) : Z :=
  match bs with
  | [] => 0%Z
  | b :: r => (b + 256 * decode r)%Z
  end.

Definition read_le (w : list Z) (off k : nat) : Z :=
  decode (firstn k (skipn off w)).

End Wav.

(** ** Call state and duration timer: updateCallState,
     startCallDurationTracking, stopCallDurationTracking, cleanup *)
Module CallState.

(** The fields the call-state methods read and write. [durationInterval]
    is the id setInterval returned ([None] for null; browser interval
    ids are positive, hence truthy); [active] lists the intervals not
    cleared yet; [nextId] is the id the next setInterval returns;
    times are in milliseconds. *)
Record client := mkClient {
  callState : string;
  callStartTime : option Z;
  callDuration : Z;
  durationInterval : option nat;
  active : list nat;
  nextId : nat;
  retryCount : nat
}.

(** The values set by the constructor and initCallStateManagement. *)
Definition initial : client := mkClient "idle" None 0 None [] 1 0.

Definition clearInterval (i : nat) (l : list nat) : list nat :=
  remove Nat.eq_dec i l.

Definition set_state (s : string) (c : client) : client :=
  mkClient s (callStartTime c) (callDuration c) (durationInterval c)
           (active c) (nextId c) (retryCount c).
Definition set_start (t : option Z) (c : client) : client :=
  mkClient (callState c) t (callDuration c) (durationInterval c)
           (active c) (nextId c) (retryCount c).

(** startCallDurationTracking *)
Definition startCallDurationTracking (c : client) : client :=
  let act := match durationInterval c with
             | Some i => clearInterval i (active c)
             | None => active c
             end in
  mkClient (callState c) (callStartTime c) (callDuration c)
           (Some (nextId c)) (nextId c :: act) (S (nextId c)) (retryCount c).

(** stopCallDurationTracking *)
Definition stopCallDurationTracking (c : client) : client :=
  match durationInterval c with
  | Some i =>
      mkClient (callState c) (callStartTime c) (callDuration c)
               None (clearInterval i (active c)) (nextId c) (retryCount c)
  | None => c
  end.

(** updateCallState(newState), at time [now]. *)
Definition updateCallState (newState : string) (now : Z) (c : client)
    : client :=
  let c1 := set_state newState c in
  if String.eqb newState "ringing" then set_start (Some now) c1
  else if String.eqb newState "connected" then startCallDurationTracking c1
  else if String.eqb newState "ended" || String.eqb newState "idle"
  then stopCallDurationTracking c1
  else c1.

(** The callback of interval [i] running at time [now]; a cleared
    interval no longer runs. *)
Definition tick (i : nat) (now : Z) (c : client) : client :=
  if in_dec Nat.eq_dec i (active c) then
    match callStartTime c with
    | Some t =>
        mkClient (callState c) (callStartTime c) ((now - t) / 1000)
                 (durationInterval c) (active c) (nextId c) (retryCount c)
    | None => c
    end
  else c.

(** cleanup(): the tone and hold-music parts are modelled by
    Tones.stopAllTones and stopHoldMusic elsewhere. *)
Definition cleanup (c : client) : client :=
  let c1 := stopCallDurationTracking c in
  mkClient "idle" None 0 (durationInterval c1) (active c1) (nextId c1) 0.

Inductive event :=
| EUpdate (s : string) (now : Z)
| ETick (i : nat) (now : Z)
| ECleanup.

Definition step (e : event) (c : client) : client :=
  match e with
  | EUpdate s now => updateCallState s now c
  | ETick i now => tick i now c
  | ECleanup => cleanup c
  end.

Fixpoint run (es : list event) (c : client) : client :=
  match es with
  | [] => c
  | e :: es' => run es' (step e c)
  end.

End CallState.

(** ** Webhook notifications: handleWebhookNotification *)
Module Webhook.

(** A JSON field of the notification. *)
Inductive value :=
| Undefined
| Null
| Str (s : string)
| Num (z : Z)
| Bool (b : bool).

Definition truthy (v : value) : bool :=
  match v with
  | Undefined | Null => false
  | Str s => negb (String.eqb s "")
  | Num z => negb (Z.eqb z 0)
  | Bool b => b
  end.

Definition js_or (a b : value) : value := if truthy a then a else b.

(** [v === s] for a string literal [s]. *)
Definition is_str (v : value) (s : string) : bool :=
  match v with Str t => String.eqb t s | _ => false end.

Record notification := mkNotification {
  extension : value;
  user : value;
  event : value;
  type : value
}.

(** handleWebhookNotification(notificationData), on [this.callState].
    [systray] is [None] when [window.voipSystray] or its handler is
    missing, [Some ok] when the handler is awaited and resolves
    ([true]) or rejects ([false], caught by the outer try). *)
Definition handleWebhookNotification (systray : option bool)
    (n : notification) (callState : string) : string :=
  match systray with
  | Some false => callState
  | _ =>
      let userExtension := js_or (extension n) (user n) in
      let eventType := js_or (event n) (type n) in
      if truthy userExtension && truthy eventType then
        if is_str eventType "call_start" || is_str eventType "call_ringing"
        then "ringing"
        else if is_str eventType "call_connected" then "connected"
        else if is_str eventType "call_end" || is_str eventType "call_hangup"
        then "ended"
        else callState
      else callState
  end.

End Webhook.

(** ** Ending a call: hangup, disconnect *)
Module Hangup.

(** [SIP.SessionState] *)
Inductive sip_state := Initial | Establishing | Established | Terminating
                     | Terminated.

(** The session method awaited. *)
Inductive request := Cancel | Bye | Reject.

(** The client fields hangup, reject and disconnect write that no other
    code run during the call writes differently.  The session methods
    may end the session, and SIP.js then runs the session's Terminated
    listeners (onCallTerminated) inside the call: those stop the tones
    and the recording again and also set [this.currentSession = null].
    Tones and the recorder are therefore left out here (the recorder is
    modelled in [Recording]). *)
Record client := mkClient {
  currentSession : option sip_state;
  localStream : bool;          (* this.localStream is set *)
  requests : list request;     (* session methods called, in order *)
  isRegistered : bool
}.

(** hangup(): [ok] says whether the awaited session method resolves;
    when it rejects the catch block runs.  [this.stopRecording()] and
    the release of the local stream come before the session method. *)
Definition hangup (ok : bool) (c : client) : client * bool :=
  match currentSession c with
  | None => (c, false)
  | Some st =>
      let req := match st with
                 | Initial | Establishing => Cancel
                 | Established => Bye
                 | Terminating | Terminated => Reject
                 end in
      (mkClient None false (requests c ++ [req]) (isRegistered c), ok)
  end.

(** disconnect(): [has_ua] is [this.userAgent] being set, [registerer]
    [userAgent.registerer] being set, [unregister_ok] and [stop_ok]
    whether the awaited unregister() and stop() resolve. hangup()
    catches its own errors. *)
Definition disconnect (hangup_ok has_ua registerer unregister_ok stop_ok : bool)
    (c : client) : client * bool :=
  let c1 := match currentSession c with
            | Some _ => fst (hangup hangup_ok c)
            | None => c
            end in
  if has_ua && registerer && negb unregister_ok then (c1, false)
  else if has_ua && negb stop_ok then (c1, false)
  else (mkClient (currentSession c1) (localStream c1) (requests c1) false,
        true).

End Hangup.

(** ** Hold-music control: startHoldMusic, createHoldMusicWithWebAudio,
     injectHoldMusicIntoCall, and VoipHoldMusicManager.startHoldMusic
     (voip_hold_music.js) *)
Module HoldControl.

(** [audioContext.state] *)
Inductive ctx_state := Running | Suspended | Closed.

(** The outside world of one start: whether [new AudioContext()] and
    its [resume()] calls in createHoldMusicWithWebAudio succeed; whether
    the session has a peer connection; whether [this.localStream] is
    set; whether the peer connection has a sender with an audio track;
    whether [replaceTrack] resolves. *)
Record env := mkEnv {
  webaudio_ok : bool;
  has_peer : bool;
  has_localStream : bool;
  has_audioSender : bool;
  replace_ok : bool
}.

(** injectHoldMusicIntoCall(), on a client whose [holdMusicAudioContext]
    is set and in state [st], with [resume_ok] for its resume(); the
    result says whether the mixed track replaced the sender's track.
    Every error is caught. *)
Definition injectHoldMusicIntoCall (session : bool) (st : ctx_state)
    (resume_ok : bool) (e : env) : bool :=
  if negb session then false
  else if negb (has_peer e) then false
  else
    let mix :=
      if has_localStream e then
        if has_audioSender e then replace_ok e else false
      else false in
    match st with
    | Suspended => if resume_ok then mix else false
    | Closed => false
    | Running => mix
    end.

(** startHoldMusic(musicId) of the client: the returned value, and
    whether the hold music was put on the call. stopHoldMusic catches
    its errors; createHoldMusicWithWebAudio leaves a running context
    (its resume() calls resolved) or throws. [musicId] is not read. *)
Definition startHoldMusic (session : bool) (e : env) : bool * bool :=
  if negb session then (false, false)
  else if negb (webaudio_ok e) then (false, false)
  else (true, injectHoldMusicIntoCall session Running true e).

(** VoipHoldMusicManager.startHoldMusic(): the new [isPlaying]. The
    value the client's startHoldMusic returns is not read. *)
Definition manager_startHoldMusic (voipClient session : bool) (e : env)
    (isPlaying : bool) : bool :=
  if voipClient && session then
    let _ := startHoldMusic session e in true
  else isPlaying.

End HoldControl.

(** ** Starting a recording: startRecording(stream) *)
Module RecordingStart.
Import Recording.

(** startRecording(stream): [active_tracks] is the number of tracks of
    the stream that are live and enabled; [create_ok] and [start_ok]
    whether [new MediaRecorder(stream, options)] and
    [mediaRecorder.start(1000)] succeed. The method catches every error.
    A new recorder replaces [this.mediaRecorder]; a stop event still
    pending is that of the old one. *)
Definition startRecording (active_tracks : nat) (create_ok start_ok : bool)
    (c : client) : client :=
  if recorderActive c then c
  else
    let c1 := set_saving false (set_saved false (set_chunks [] c)) in
    if Nat.eqb active_tracks 0 || negb create_ok then c1
    else set_recorder start_ok (onstopPending c) c1.

End RecordingStart.

(** ** Tone WAV files: bufferToWave *)
Module Wave.
Import Wav.

(** What bufferToWave reads of the AudioBuffer: [numberOfChannels],
    [sampleRate] and [getChannelData(i)[offset]] (always in range, the
    callers passing [buffer.length] as [len]). *)
Record source (N : Type) := mkSource {
  numberOfChannels : nat;
  sampleRate : Z;
  channelData : nat -> nat -> N
}.
Arguments mkSource {N}.
Arguments numberOfChannels {N}.
Arguments sampleRate {N}.
Arguments channelData {N}.

Section ToWave.

Variable N : Type.

(** The same conversion as in encodeWAV: clamp to [-1, 1], scale by
    [0x8000] or [0x7FFF], truncate in setInt16. *)
Variable pcm16 : N -> Z.

(** The inner [for] loop over the channels, from channel [i] with [k]
    channels left, at frame [offset]: the new [pos] and the view. *)
Fixpoint write_frame (s : source N) (i k offset pos : nat) (view : list Z)
    : nat * list Z :=
  match k with
  | O => (pos, view)
  | S k' =>
      write_frame s (S i) k' offset (pos + 2)
        (write pos (le_bytes 2 (pcm16 (channelData s i offset))) view)
  end.

(** The [while (pos < length)] loop, one frame per iteration. [fuel]
    bounds the iterations; bufferToWave gives it [len], and WaveFacts
    shows [pos = length] when it runs out, so the loop of the source
    has stopped there too. *)
Fixpoint write_frames (s : source N) (length fuel offset pos : nat)
    (view : list Z) : nat * list Z :=
  match fuel with
  | O => (pos, view)
  | S f =>
      if pos <? length then
        let (pos', view') :=
          write_frame s 0 (numberOfChannels s) offset pos view in
        write_frames s length f (S offset) pos' view'
      else (pos, view)
  end.

(** bufferToWave(buffer, len): the final [pos] and the bytes of the
    ArrayBuffer the returned blob URL serves. The header positions are
    those [pos] takes through the setUint16/setUint32 helpers. *)
Definition bufferToWave_run (s : source N) (len : nat) : nat * list Z :=
  let numOfChan := numberOfChannels s in
  let length := len * numOfChan * 2 + 44 in
  let view := repeat 0%Z length in
  let view := write 0 (le_bytes 4 0x46464952) view in
  let view := write 4 (le_bytes 4 (Z.of_nat length - 8)) view in
  let view := write 8 (le_bytes 4 0x45564157) view in
  let view := write 12 (le_bytes 4 0x20746d66) view in
  let view := write 16 (le_bytes 4 16) view in
  let view := write 20 (le_bytes 2 1) view in
  let view := write 22 (le_bytes 2 (Z.of_nat numOfChan)) view in
  let view := write 24 (le_bytes 4 (sampleRate s)) view in
  let view := write 28 (le_bytes 4 (sampleRate s * 2 * Z.of_nat numOfChan)) view in
  let view := write 32 (le_bytes 2 (Z.of_nat numOfChan * 2)) view in
  let view := write 34 (le_bytes 2 16) view in
  let view := write 36 (le_bytes 4 0x61746164) view in
  let view := write 40 (le_bytes 4 (Z.of_nat length - 40 - 4)) view in
  write_frames s length len 0 44 view.

Definition bufferToWave (s : source N) (len : nat) : list Z :=
  snd (bufferToWave_run s len).

End ToWave.

Arguments write_frame {N}.
Arguments write_frames {N}.
Arguments bufferToWave_run {N}.
Arguments bufferToWave {N}.

End Wave.

(** * Properties *)

Module RecordingFacts.
Import Recording.

(** The guard of saveRecording issues no request when either flag is
    set, but its early [return] goes through [finally]. *)
Lemma guard_no_request (from_onstop : bool) (c : client) :
  recordingSaved c || recordingSaving c = true ->
  inflight (saveRecording_call from_onstop c) = inflight c
  /\ recordingSaving (saveRecording_call from_onstop c) = false.
Proof.
  intros H. unfold saveRecording_call. rewrite H.
  destruct from_onstop; split; reflexivity.
Qed.

(** Past the guard, the saving flag is set before the POST is issued. *)
Lemma issue_sets_saving (from_onstop : bool) (c : client) (x : nat) (l : list nat) :
  recordingSaved c = false -> recordingSaving c = false ->
  recordedChunks c = x :: l ->
  inflight (saveRecording_call from_onstop c) = inflight c ++ [from_onstop]
  /\ recordingSaving (saveRecording_call from_onstop c) = true.
Proof.
  intros H1 H2 H3. unfold saveRecording_call. rewrite H1, H2, H3.
  simpl. split; reflexivity.
Qed.

(** C1 (failing input).  One call session: a chunk is recorded; hangup
    calls stopRecording, which stops the recorder; its stop event fires
    and the onstop handler starts an upload; the session then reaches
    Terminated and the two state listeners that makeCall registers each
    call stopRecording; both POSTs that were issued are answered OK: two
    uploads of the same chunks succeed. *)
Theorem recording_uploaded_twice :
  let c := run [EData 100; EStopRecording; EOnstop; EStopRecording;
                EStopRecording; EResponse 0 RespOk; EResponse 0 RespOk]
               session_start in
  postsOk c = 2 /\ recordedChunks c = [100].
Proof. vm_compute. split; reflexivity. Qed.

(** Clearing the flags in the onstop continuation after a successful
    upload also re-opens the guard: a later stopRecording uploads again. *)
Lemma recording_reuploaded_after_success :
  postsOk (run [EData 100; EStopRecording; EOnstop; EResponse 0 RespOk;
                EStopRecording; EResponse 0 RespOk] session_start) = 2.
Proof. vm_compute. reflexivity. Qed.

(** C2.  When a pending upload fails (a non-OK response or a network
    error), the buffered chunks are unchanged, the saving flag is
    cleared so that a later call may retry, and a saved flag that was
    false stays false. *)
Theorem failed_upload_keeps_chunks (c : client) (i : nat) (o : outcome) :
  o = RespNotOk \/ o = NetworkError ->
  i < length (inflight c) ->
  let c' := step (EResponse i o) c in
  recordedChunks c' = recordedChunks c
  /\ recordingSaving c' = false
  /\ (recordingSaved c = false -> recordingSaved c' = false).
Proof.
  intros Ho Hi. simpl.
  destruct (nth_error (inflight c) i) as [from_onstop|] eqn:E.
  - destruct Ho as [-> | ->]; destruct from_onstop; simpl;
      repeat split; auto.
  - apply nth_error_None in E. lia.
Qed.

Lemma failed_upload_keeps_chunks_witness :
  let c := mkClient [100] false true false false [false] 0 in
  (NetworkError = RespNotOk \/ NetworkError = NetworkError)
  /\ 0 < length (inflight c)
  /\ recordedChunks (step (EResponse 0 NetworkError) c) = recordedChunks c.
Proof.
  split; [right; reflexivity|].
  split; [simpl; lia|].
  apply (failed_upload_keeps_chunks
           (mkClient [100] false true false false [false] 0) 0 NetworkError);
    [right; reflexivity | simpl; lia].
Defined.

End RecordingFacts.

Module HoldFacts.
Import HoldResume.

(** C3 (failing input).  A hold on a session that is not on hold, whose
    re-INVITE is sent and then rejected: holdCall resolves to [true]
    with [isOnHold] already [true]; the rejection reaches the delegate
    afterwards, which rolls [isOnHold] back to [false] and throws
    "Failed to put call on hold" inside SIP.js, so the caller of
    holdCall, told the hold succeeded, never sees the error.  resumeCall
    behaves the same way, rolling [isOnHold] back to [true].  Only when
    [invite()] itself rejects does the error reach the caller. *)
Theorem rejected_renegotiation_not_reported (s : session) :
  reinviteHold s <> None ->
  (isOnHold s <> Some true ->
   (exists s1, holdCall (Some s) Sent = (Some s1, Ok)
     /\ isOnHold s1 = Some true
     /\ hold_response Rejected (Some s1)
        = (Some (set_isOnHold (Some false) s1),
           Some "Failed to put call on hold"%string))
   /\ (exists s1 msg, holdCall (Some s) SendFails = (Some s1, Err msg)
     /\ isOnHold s1 = Some false))
  /\ (isOnHold s <> Some false ->
   (exists s1, resumeCall (Some s) Sent = (Some s1, Ok)
     /\ isOnHold s1 = Some false
     /\ resume_response Rejected (Some s1)
        = (Some (set_isOnHold (Some true) s1),
           Some "Failed to take call off hold"%string))
   /\ (exists s1 msg, resumeCall (Some s) SendFails = (Some s1, Err msg)
     /\ isOnHold s1 = Some true)).
Proof.
  intros Ho. destruct s as [h opts pc ast log]; simpl in *.
  destruct opts as [o|]; [|congruence].
  split; intros Hh; destruct h as [[|]|]; try congruence; simpl;
    (split; [eexists; split; [reflexivity | split; reflexivity]
            | do 2 eexists; split; reflexivity]).
Qed.

Lemma rejected_renegotiation_not_reported_witness :
  let s := mkSession (Some false) (Some false) None None [] in
  exists s1, holdCall (Some s) Sent = (Some s1, Ok)
    /\ isOnHold s1 = Some true
    /\ hold_response Rejected (Some s1)
       = (Some (set_isOnHold (Some false) s1),
          Some "Failed to put call on hold"%string).
Proof.
  intros s.
  apply (proj1 (proj1 (rejected_renegotiation_not_reported s
                         ltac:(simpl; discriminate)) ltac:(simpl; discriminate))).
Defined.

Definition all_enabled (ts : list (option track)) : Prop :=
  Forall (fun ot => forall t, ot = Some t -> enabled t = true) ts.

Definition ids (ts : list (option track)) : list (option nat) :=
  map (option_map trackId) ts.

Lemma toggle_receivers_ids (b : bool) (rs : list (option track)) :
  ids (toggle_receivers b rs) = ids rs.
Proof.
  induction rs as [|[t|] rs IH]; simpl; f_equal; auto.
Qed.

Lemma toggle_receivers_enabled (b : bool) (rs : list (option track)) :
  Forall (fun ot => forall t, ot = Some t -> enabled t = b)
    (toggle_receivers b rs).
Proof.
  induction rs as [|[t|] rs IH]; simpl; constructor; auto;
    intros t' H; inversion H; reflexivity.
Qed.

Lemma toggle_senders_spec (b : bool) (ss : list (option track)) :
  forall ast ss' ast', toggle_senders b ast ss = (ss', ast') ->
  ids ss' = ids ss
  /\ Forall (fun ot => forall t, ot = Some t -> enabled t = b) ss'.
Proof.
  induction ss as [|st ss IH]; intros ast ss' ast' H; simpl in H.
  - inversion H; subst. split; [reflexivity | constructor].
  - destruct (toggle_sender b ast st) as [st1 ast1] eqn:E1.
    destruct (toggle_senders b ast1 ss) as [ss1 ast2] eqn:E2.
    inversion H; subst.
    destruct (IH ast1 ss1 ast' E2) as [Hid Hen].
    destruct st as [t|]; simpl in E1.
    + destruct (trackKind t); inversion E1; subst; simpl;
        (split; [f_equal; exact Hid
                | constructor; [intros t' Ht; inversion Ht; reflexivity | exact Hen]]).
    + inversion E1; subst; simpl.
      split; [f_equal; exact Hid | constructor; [discriminate | exact Hen]].
Qed.

Lemma toggle_tracks_spec (b : bool) (s : session) :
  (peerConn s = None -> peerConn (toggle_tracks b s) = None)
  /\ (forall p, peerConn s = Some p ->
      exists p', peerConn (toggle_tracks b s) = Some p'
        /\ ids (receivers p') = ids (receivers p)
        /\ ids (senders p') = ids (senders p)
        /\ Forall (fun ot => forall t, ot = Some t -> enabled t = b) (receivers p')
        /\ Forall (fun ot => forall t, ot = Some t -> enabled t = b) (senders p')).
Proof.
  unfold toggle_tracks. split.
  - intros H. rewrite H. exact H.
  - intros p H. rewrite H.
    destruct (toggle_senders b (audioSourceTrack s) (senders p)) as [ss ast] eqn:E.
    destruct (toggle_senders_spec b (senders p) _ _ _ E) as [Hid Hen].
    eexists. split; [reflexivity|]. simpl.
    split; [apply toggle_receivers_ids|].
    split; [exact Hid|].
    split; [apply toggle_receivers_enabled | exact Hen].
Qed.

Lemma toggle_tracks_flags (b : bool) (x : session) :
  isOnHold (toggle_tracks b x) = isOnHold x
  /\ reinviteHold (toggle_tracks b x) = reinviteHold x.
Proof.
  unfold toggle_tracks. destruct (peerConn x) as [p|]; [|split; reflexivity].
  destruct (toggle_senders b (audioSourceTrack x) (senders p)).
  split; reflexivity.
Qed.

Lemma hold_then_resume_accepted (s : session) :
  isOnHold s <> Some true -> reinviteHold s <> None ->
  let x := set_reinviteHold true (set_isOnHold (Some true) s) in
  let s2 := hold_onAccept x in
  let y := set_reinviteHold false (set_isOnHold (Some false) s2) in
  holdCall (Some s) Sent = (Some x, Ok)
  /\ hold_response Accepted (Some x) = (Some s2, None)
  /\ resumeCall (Some s2) Sent = (Some y, Ok)
  /\ resume_response Accepted (Some y) = (Some (resume_onAccept y), None).
Proof.
  intros Hh Ho x s2 y.
  assert (Hx : reinviteHold (set_isOnHold (Some true) s) = reinviteHold s)
    by reflexivity.
  split; [|split; [reflexivity | split; [|reflexivity]]].
  - unfold holdCall.
    destruct (isOnHold s) as [[|]|] eqn:E; [congruence| |];
      (rewrite Hx; destruct (reinviteHold s) eqn:Eo; [reflexivity | congruence]).
  - unfold resumeCall.
    assert (H1 : isOnHold s2 = Some true).
    { unfold s2, hold_onAccept. reflexivity. }
    assert (H2 : reinviteHold (set_isOnHold (Some false) s2) = Some true).
    { unfold s2, hold_onAccept. simpl.
      rewrite (proj2 (toggle_tracks_flags false x)). reflexivity. }
    rewrite H1, H2. reflexivity.
Qed.

(** C4 (counterexample).  The microphone is muted before the hold
    (its sender track has [enabled = false]); after hold and an
    accepted resume the sender track is enabled: the outbound
    configuration is not the one before the hold. *)
Theorem resume_unmutes_muted_track :
  let mic := mkTrack 1 Audio true false in
  let remote := mkTrack 2 Audio true false in
  let s0 := mkSession (Some false) (Some false)
              (Some (mkPeer [Some remote] [mute_sender (Some mic)])) None [] in
  let s1 := fst (hold_response Accepted (fst (holdCall (Some s0) Sent))) in
  let s2 := fst (resume_response Accepted (fst (resumeCall s1 Sent))) in
  option_map peerConn s2 = Some (Some (mkPeer [Some remote] [Some mic]))
  /\ peerConn s0 = Some (mkPeer [Some remote] [Some (mkTrack 1 Audio false false)])
  /\ Some (mkPeer [Some remote] [Some mic])
     <> Some (mkPeer [Some remote] [Some (mkTrack 1 Audio false false)]).
Proof.
  split; [reflexivity|]. split; [reflexivity|]. discriminate.
Qed.

(** C4 (amended).  After a hold whose re-INVITE is accepted and a resume
    whose re-INVITE is accepted, [isOnHold] is [false], every receiver
    track and every sender track of the peer connection is enabled, and
    the receivers and senders carry the same track objects as before
    the hold (no track was swapped in). *)
Theorem hold_resume_round_trip (s : session) :
  isOnHold s <> Some true -> reinviteHold s <> None ->
  exists s1 s2 s3 s4,
    holdCall (Some s) Sent = (Some s1, Ok)
    /\ hold_response Accepted (Some s1) = (Some s2, None)
    /\ resumeCall (Some s2) Sent = (Some s3, Ok)
    /\ resume_response Accepted (Some s3) = (Some s4, None)
    /\ isOnHold s4 = Some false
    /\ (peerConn s = None -> peerConn s4 = None)
    /\ (forall p, peerConn s = Some p ->
        exists p2, peerConn s4 = Some p2
          /\ ids (receivers p2) = ids (receivers p)
          /\ ids (senders p2) = ids (senders p)
          /\ all_enabled (receivers p2)
          /\ all_enabled (senders p2)).
Proof.
  intros Hh Ho.
  destruct (hold_then_resume_accepted s Hh Ho) as [E1 [E2 [E3 E4]]].
  set (x := set_reinviteHold true (set_isOnHold (Some true) s)) in *.
  set (y := set_reinviteHold false (set_isOnHold (Some false) (hold_onAccept x))) in *.
  exists x, (hold_onAccept x), y, (resume_onAccept y).
  split; [exact E1|]. split; [exact E2|]. split; [exact E3|].
  split; [exact E4|]. split; [reflexivity|].
  assert (Py : peerConn y = peerConn (toggle_tracks false x)) by reflexivity.
  assert (Px : peerConn x = peerConn s) by reflexivity.
  assert (P2 : peerConn (resume_onAccept y) = peerConn (toggle_tracks true y))
    by reflexivity.
  split.
  - intros Hn. rewrite P2.
    apply (proj1 (toggle_tracks_spec true y)). rewrite Py.
    apply (proj1 (toggle_tracks_spec false x)). rewrite Px. exact Hn.
  - intros p Hp.
    destruct (proj2 (toggle_tracks_spec false x) p (eq_trans Px Hp))
      as [p1 [Hp1 [Hr1 [Hs1 _]]]].
    destruct (proj2 (toggle_tracks_spec true y) p1 (eq_trans Py Hp1))
      as [p2 [Hp2 [Hr2 [Hs2 [Er2 Es2]]]]].
    exists p2. rewrite P2.
    split; [exact Hp2|].
    split; [congruence|]. split; [congruence|].
    split; [exact Er2 | exact Es2].
Qed.

Lemma hold_resume_round_trip_witness :
  let s := mkSession None (Some false)
             (Some (mkPeer [Some (mkTrack 2 Audio true false)]
                           [Some (mkTrack 1 Audio true false)])) None [] in
  exists s1 s2 s3 s4,
    holdCall (Some s) Sent = (Some s1, Ok)
    /\ hold_response Accepted (Some s1) = (Some s2, None)
    /\ resumeCall (Some s2) Sent = (Some s3, Ok)
    /\ resume_response Accepted (Some s3) = (Some s4, None)
    /\ isOnHold s4 = Some false
    /\ (peerConn s = None -> peerConn s4 = None)
    /\ (forall p, peerConn s = Some p ->
        exists p2, peerConn s4 = Some p2
          /\ ids (receivers p2) = ids (receivers p)
          /\ ids (senders p2) = ids (senders p)
          /\ all_enabled (receivers p2)
          /\ all_enabled (senders p2)).
Proof.
  intros s. apply hold_resume_round_trip; simpl; discriminate.
Defined.

End HoldFacts.

Module ToneFacts.
Import Tones.

Lemma playTone_at_most_one (t : tone) (ok : bool) (ts : tones) :
  n_playing (playTone t ok ts) <= 1.
Proof. destruct t, ok; cbv; lia. Qed.

Lemma apply_op_at_most_one (o : op) (ts : tones) :
  n_playing ts <= 1 -> n_playing (apply_op o ts) <= 1.
Proof.
  intros H. destruct o as [t ok| |t ms|t].
  - apply playTone_at_most_one.
  - cbv. lia.
  - destruct ts as [[p1 t1] [p2 t2] [p3 t3]];
      destruct t, p1, p2, p3; cbv in *; lia.
  - destruct ts as [[p1 t1] [p2 t2] [p3 t3]];
      destruct t, p1, p2, p3; cbv in *; lia.
Qed.

(** C10.  Each of the three play methods pauses the other two tones and
    rewinds them to position 0, and from a state with at most one tone
    playing (initially none), any sequence of plays, stops, playback
    and tone ends keeps at most one of the three tones playing. *)
Theorem at_most_one_tone :
  (forall t t' ok ts, t' <> t -> get t' (playTone t ok ts) = mkAudio true 0)
  /\ (forall os ts, n_playing ts <= 1 -> n_playing (run_ops os ts) <= 1).
Proof.
  split.
  - intros t t' ok ts Hne. destruct t, t'; try congruence; reflexivity.
  - induction os as [|o os IH]; intros ts H; simpl; auto.
    apply IH, apply_op_at_most_one, H.
Qed.

Lemma at_most_one_tone_witness :
  get Busy (playRingbackTone true (mkTones (mkAudio true 0) (mkAudio false 7)
                                          (mkAudio true 0))) = mkAudio true 0
  /\ n_playing (run_ops [OPlay Ring true; OAdvance Ring 500; OPlay Busy true;
                         OEnded Busy; OPlay Ringback true] all_stopped) <= 1.
Proof.
  split.
  - apply (proj1 at_most_one_tone). discriminate.
  - apply (proj2 at_most_one_tone). cbv. lia.
Defined.

End ToneFacts.

Module CallFacts.
Import Tones Call.




End CallFacts.

Module TransferFacts.
Import Transfer.

(** C6 (counterexample).  holdCall changes only [isOnHold]: the SIP.js
    state of a call on hold stays "Established".  transferCall does not
    read [isOnHold], so on a held call, with a target that makeURI
    parses, it sends the REFER and resolves. *)
Theorem transfer_from_held_call :
  let held := mkClient [mkSession "Established" (Some true) None false]
                (Some 0) "pbx" 0 [] [] [] in
  snd (transferCall true (Some "2002"%string) held) = Ok
  /\ refers (fst (transferCall true (Some "2002"%string) held))
     = [(0, ReferUri "sip:2002@pbx")].
Proof. split; reflexivity. Qed.

Lemma escape_hash_no_hash (e : string) :
  ~ In "#"%char (list_ascii_of_string e) -> escape_hash e = e.
Proof.
  induction e as [|a e IH]; intros H; simpl; [reflexivity|].
  simpl in H.
  destruct (Ascii.eqb a "#"%char) eqn:E.
  - apply Ascii.eqb_eq in E. exfalso. apply H. left. exact E.
  - f_equal. apply IH. intros Hin. apply H. right. exact Hin.
Qed.

(** C6 (amended).  transferCall throws, with no REFER sent and no
    delegate installed, when there is no current session, when the
    current session's SIP state is not "Established", or when the
    extension is undefined.  On an established current session (hold
    flag not consulted) and a string extension, the target is
    [sip:<extension with each # as %23>@<host>], only '#' being
    escaped: if makeURI parses it, exactly one REFER is sent to it and
    transferCall resolves; if makeURI returns undefined, transferCall
    throws and sends no REFER. *)
Theorem transferCall_checks (uri_ok : bool) (ext : option string) (c : client) :
  ((current c = None
    \/ (exists j s, current c = Some j /\ nth_error (sessions c) j = Some s
                    /\ sipState s <> "Established"%string)
    \/ ext = None) ->
   (exists msg, snd (transferCall uri_ok ext c) = Err msg)
   /\ refers (fst (transferCall uri_ok ext c)) = refers c
   /\ pending (fst (transferCall uri_ok ext c)) = pending c)
  /\ (forall j s e, current c = Some j -> nth_error (sessions c) j = Some s ->
      sipState s = "Established"%string -> ext = Some e ->
      (uri_ok = true ->
       snd (transferCall uri_ok ext c) = Ok
       /\ refers (fst (transferCall uri_ok ext c))
          = refers c ++ [(j, ReferUri (transfer_target e (host c)))])
      /\ (uri_ok = false ->
       (exists msg, snd (transferCall uri_ok ext c) = Err msg)
       /\ refers (fst (transferCall uri_ok ext c)) = refers c
       /\ pending (fst (transferCall uri_ok ext c)) = pending c))
  /\ (forall e, ~ In "#"%char (list_ascii_of_string e) -> escape_hash e = e)
  /\ escape_hash "#" = "%23"%string.
Proof.
  split; [|split; [|split]].
  - intros H. unfold transferCall, transfer_prologue.
    destruct H as [H | [[j [s [Hj [Hs Hst]]]] | H]].
    + rewrite H. repeat split. eexists. reflexivity.
    + rewrite Hj, Hs.
      destruct (String.eqb (sipState s) "Established") eqn:E.
      * apply String.eqb_eq in E. contradiction.
      * simpl. repeat split. eexists. reflexivity.
    + subst ext. destruct (current c) as [j|];
        [destruct (nth_error (sessions c) j) as [s|];
         [destruct (String.eqb (sipState s) "Established")|]|];
        simpl; repeat split; eexists; reflexivity.
  - intros j s e Hj Hs Hst He. subst ext.
    unfold transferCall, transfer_prologue. rewrite Hj, Hs, Hst. simpl.
    split; intros Hu; subst uri_ok.
    + split; reflexivity.
    + split; [eexists; reflexivity | split; reflexivity].
  - apply escape_hash_no_hash.
  - reflexivity.
Qed.

Lemma transferCall_checks_witness :
  snd (transferCall true (Some "2002"%string) (established_client "pbx")) = Ok.
Proof.
  exact (proj1 (proj1 (proj1 (proj2 (transferCall_checks true (Some "2002"%string)
                                       (established_client "pbx")))
                        0 (mkSession "Established" None None false) "2002"%string
                        eq_refl eq_refl eq_refl eq_refl) eq_refl)).
Defined.

(** C7 (failing input).  A blind transfer to 2002 on an established call;
    before the REFER is answered an INVITE arrives (handleIncomingCall
    makes it the current session); the REFER is then accepted.  The
    onAccept delegate dereferences [this.currentSession.data], undefined
    on the new session, so the transfer record of the original call is
    never marked completed and no BYE is sent on it. *)
Theorem blind_transfer_accept_lost :
  let c := run [ETransfer (Some "2002"%string) true; EIncoming;
                EResponse 0 (RAccept "Accepted")] (established_client "pbx") in
  option_map transfers (nth_error (sessions c) 0)
    = Some [new_record "Blind" "2002" "refer" 0]
  /\ option_map byeSent (nth_error (sessions c) 0) = Some false
  /\ refers c = [(0, ReferUri "sip:2002@pbx")].
Proof. vm_compute. split; [|split]; reflexivity. Qed.

(** With the call still current, the same acceptance marks the record
    completed and sends the BYE. *)
Lemma blind_transfer_accept_current :
  let c := run [ETransfer (Some "2002"%string) true;
                EResponse 0 (RAccept "Accepted")] (established_client "pbx") in
  option_map transfers (nth_error (sessions c) 0)
    = Some [set_accept true "Accepted" 0 (new_record "Blind" "2002" "refer" 0)]
  /\ option_map byeSent (nth_error (sessions c) 0) = Some true.
Proof. vm_compute. split; reflexivity. Qed.

(** C8 (counterexample).  A rejected blind transfer rewrites the
    [accept] fields of the record that transferCall appended. *)
Theorem transfer_record_mutated :
  let c1 := run [ETransfer (Some "2002"%string) true] (established_client "pbx") in
  let c2 := run [EResponse 0 (RReject "Decline")] c1 in
  option_map transfers (nth_error (sessions c1) 0)
    = Some [new_record "Blind" "2002" "refer" 0]
  /\ option_map transfers (nth_error (sessions c2) 0)
    = Some [set_accept false "Decline" 0 (new_record "Blind" "2002" "refer" 0)]
  /\ set_accept false "Decline" 0 (new_record "Blind" "2002" "refer" 0)
     <> new_record "Blind" "2002" "refer" 0.
Proof. vm_compute. split; [reflexivity | split; [reflexivity | discriminate]]. Qed.

(** The fields of a record that no code writes after the push. *)
Definition same_identity (r r' : transfer_record) : Prop :=
  ttype r' = ttype r /\ tto r' = tto r /\ transferTime r' = transferTime r.

(** [l'] keeps every record of [l], at the same position, with the same
    type, target and request time. *)
Definition log_extends (l l' : list transfer_record) : Prop :=
  forall k r, nth_error l k = Some r ->
    exists r', nth_error l' k = Some r' /\ same_identity r r'.

Definition session_log (ss : list session) (j : nat) : list transfer_record :=
  match nth_error ss j with Some s => transfers s | None => [] end.

Definition logs_extend (ss ss' : list session) : Prop :=
  forall j, log_extends (session_log ss j) (session_log ss' j).

Lemma log_extends_refl (l : list transfer_record) : log_extends l l.
Proof. intros k r H. exists r. split; [exact H | repeat split]. Qed.

Lemma log_extends_trans (l1 l2 l3 : list transfer_record) :
  log_extends l1 l2 -> log_extends l2 l3 -> log_extends l1 l3.
Proof.
  intros H12 H23 k r H.
  destruct (H12 k r H) as [r2 [H2 [A1 [B1 C1]]]].
  destruct (H23 k r2 H2) as [r3 [H3 [A2 [B2 C2]]]].
  exists r3. split; [exact H3|]. unfold same_identity. rewrite A2, B2, C2. auto.
Qed.

Lemma log_extends_app (l x : list transfer_record) : log_extends l (l ++ x).
Proof.
  intros k r H. exists r. split; [|repeat split].
  rewrite nth_error_app1; [exact H|]. apply nth_error_Some. congruence.
Qed.

Lemma log_extends_nil (l : list transfer_record) : log_extends [] l.
Proof. intros [|k] r H; discriminate. Qed.

Lemma nth_error_update_nth {A} (n : nat) (f : A -> A) (l : list A) (k : nat) :
  nth_error (update_nth n f l) k
  = if Nat.eqb n k then option_map f (nth_error l k) else nth_error l k.
Proof.
  revert n k. induction l as [|x l IH]; intros [|n] [|k]; simpl; auto.
  - destruct (Nat.eqb n k); reflexivity.
Qed.

Lemma log_extends_update_z (tid : Z) (f : transfer_record -> transfer_record)
    (l : list transfer_record) :
  (forall r, same_identity r (f r)) -> log_extends l (update_z tid f l).
Proof.
  intros Hf. unfold update_z. destruct (tid <? 0)%Z; [apply log_extends_refl|].
  intros k r H. rewrite nth_error_update_nth.
  destruct (Nat.eqb (Z.to_nat tid) k).
  - rewrite H. exists (f r). split; [reflexivity | apply Hf].
  - exists r. split; [exact H | repeat split].
Qed.

Lemma logs_extend_refl (ss : list session) : logs_extend ss ss.
Proof. intros j. apply log_extends_refl. Qed.

Lemma logs_extend_trans (a b d : list session) :
  logs_extend a b -> logs_extend b d -> logs_extend a d.
Proof. intros H1 H2 j. eapply log_extends_trans; [apply H1 | apply H2]. Qed.

Lemma logs_extend_update (ss : list session) (j : nat) (s : session)
    (f : session -> session) :
  nth_error ss j = Some s -> log_extends (transfers s) (transfers (f s)) ->
  logs_extend ss (update_nth j f ss).
Proof.
  intros Hs Hf k. unfold session_log. rewrite nth_error_update_nth.
  destruct (Nat.eqb j k) eqn:E.
  - apply Nat.eqb_eq in E. subst k. rewrite Hs. exact Hf.
  - apply log_extends_refl.
Qed.

Lemma logs_extend_app (ss x : list session) : logs_extend ss (ss ++ x).
Proof.
  intros k. unfold session_log.
  destruct (nth_error ss k) as [s|] eqn:E.
  - rewrite nth_error_app1; [rewrite E; apply log_extends_refl|].
    apply nth_error_Some. congruence.
  - apply log_extends_nil.
Qed.

Lemma transfers_init_data (s : session) : transfers (init_data s) = transfers s.
Proof. destruct s as [st h [[l|]|] b]; reflexivity. Qed.

Lemma transfers_push_init (r : transfer_record) (s : session) :
  transfers (push_record r (init_transfer s)) = transfers s ++ [r].
Proof. destruct s as [st h [[l|]|] b]; reflexivity. Qed.

Lemma logs_extend_update_all (ss : list session) (j : nat)
    (f : session -> session) :
  (forall s, log_extends (transfers s) (transfers (f s))) ->
  logs_extend ss (update_nth j f ss).
Proof.
  intros Hf. destruct (nth_error ss j) as [s|] eqn:E.
  - apply (logs_extend_update ss j s f E (Hf s)).
  - intros k. unfold session_log. rewrite nth_error_update_nth.
    destruct (Nat.eqb j k) eqn:Ek; [|apply log_extends_refl].
    apply Nat.eqb_eq in Ek. subst k. rewrite E. apply log_extends_nil.
Qed.

Lemma prologue_logs (ext : option string) (c : client) :
  match transfer_prologue ext c with
  | inl (j, c1, _) => logs_extend (sessions c) (sessions c1)
  | inr (c', _) => logs_extend (sessions c) (sessions c')
  end.
Proof.
  unfold transfer_prologue.
  destruct (current c) as [j|]; [|apply logs_extend_refl].
  destruct (nth_error (sessions c) j) as [s|] eqn:Hs; [|apply logs_extend_refl].
  destruct (negb (String.eqb (sipState s) "Established")); [apply logs_extend_refl|].
  destruct ext; simpl; apply logs_extend_update_all;
    intros s'; rewrite transfers_init_data; apply log_extends_refl.
Qed.

Lemma with_current_record_logs (tid : Z) (f : transfer_record -> transfer_record)
    (b : bool) (c : client) :
  (forall r, same_identity r (f r)) ->
  logs_extend (sessions c) (sessions (with_current_record tid f b c)).
Proof.
  intros Hf. unfold with_current_record.
  destruct (current c) as [j|]; [|apply logs_extend_refl].
  destruct (nth_error (sessions c) j) as [s|] eqn:Hs; [|apply logs_extend_refl].
  destruct (data s) as [[l|]|] eqn:Hd; try apply logs_extend_refl.
  destruct (nth_z tid l); [|apply logs_extend_refl].
  simpl. apply (logs_extend_update _ j s _ Hs).
  assert (Hl : transfers s = l) by (unfold transfers; rewrite Hd; reflexivity).
  rewrite Hl. destruct b; simpl; apply log_extends_update_z; exact Hf.
Qed.

Lemma set_accept_identity (b : bool) (rp : string) (t : nat) (r : transfer_record) :
  same_identity r (set_accept b rp t r).
Proof. repeat split. Qed.

Lemma set_disposition_identity (d : string) (t : nat) (r : transfer_record) :
  same_identity r (set_disposition d t r).
Proof. repeat split. Qed.

Lemma handle_logs (d : delegate) (r : response) (c : client) :
  logs_extend (sessions c) (sessions (fst (handle d r c))).
Proof.
  destruct d, r; simpl; try apply logs_extend_refl;
    apply with_current_record_logs;
    first [apply set_accept_identity | apply set_disposition_identity].
Qed.

Lemma step_logs (e : event) (c : client) :
  logs_extend (sessions c) (sessions (step e c)).
Proof.
  destruct e as [ext ok|ext ok|k|i r| | |ms]; simpl.
  - unfold transferCall. pose proof (prologue_logs ext c) as HP.
    destruct (transfer_prologue ext c) as [[[j c1] tgt]|[c' m]]; simpl;
      [|exact HP].
    eapply logs_extend_trans; [exact HP|].
    destruct ok; simpl;
      (apply logs_extend_update_all; intros s;
       rewrite transfers_push_init; apply log_extends_app).
  - unfold attendedTransfer. pose proof (prologue_logs ext c) as HP.
    destruct (transfer_prologue ext c) as [[[j c1] tgt]|[c' m]]; simpl;
      [|exact HP].
    eapply logs_extend_trans; [exact HP|].
    destruct ok; simpl;
      [eapply logs_extend_trans; [|apply logs_extend_app]|];
      (apply logs_extend_update_all; intros s;
       rewrite transfers_push_init; apply log_extends_app).
  - unfold completeAttendedTransfer.
    destruct (current c) as [j|]; destruct k as [k|];
      try (destruct (nth_error (sessions c) j) as [s|];
           [destruct (data s) as [[l|]|]|]);
      apply logs_extend_refl.
  - destruct (nth_error (pending c) i) as [d|]; [|apply logs_extend_refl].
    pose proof (handle_logs d r c) as HH.
    destruct (handle d r c) as [c' keep]. simpl in HH.
    destruct keep; exact HH.
  - apply logs_extend_app.
  - apply logs_extend_refl.
  - apply logs_extend_refl.
Qed.

(** C8 (amended).  The transfer log of every session only grows: under
    any sequence of transfer operations, responses, incoming calls and
    terminations, each record keeps its position, type, target and
    request time (the response delegates update only its disposition,
    dispositionTime and accept fields); and a transferCall or
    attendedTransfer that passes its checks appends exactly one record
    to the current session's log, also when makeURI then fails and the
    call throws. *)
Theorem transfer_log_append_only :
  (forall es c j, log_extends (session_log (sessions c) j)
                              (session_log (sessions (run es c)) j))
  /\ (forall ok ext c j s e, current c = Some j -> nth_error (sessions c) j = Some s ->
      sipState s = "Established"%string -> ext = Some e ->
      session_log (sessions (fst (transferCall ok ext c))) j
        = session_log (sessions c) j ++ [new_record "Blind" e "refer" (now c)]
      /\ session_log (sessions (fst (attendedTransfer ok ext c))) j
        = session_log (sessions c) j ++ [new_record "Attended" e "invite" (now c)]).
Proof.
  split.
  - induction es as [|e es IH]; intros c j; simpl; [apply log_extends_refl|].
    eapply log_extends_trans; [apply step_logs | apply IH].
  - intros ok ext c j s e Hj Hs Hst He. subst ext.
    unfold transferCall, attendedTransfer, transfer_prologue.
    rewrite Hj, Hs, Hst. simpl.
    unfold session_log.
    assert (Hj1 : nth_error (update_nth j init_data (sessions c)) j
                  = Some (init_data s))
      by (rewrite nth_error_update_nth, Nat.eqb_refl, Hs; reflexivity).
    assert (Hj2 : forall f, nth_error (update_nth j f (update_nth j init_data (sessions c))) j
                  = Some (f (init_data s)))
      by (intros f; rewrite nth_error_update_nth, Nat.eqb_refl, Hj1; reflexivity).
    rewrite Hs. destruct ok; simpl; split.
    + rewrite Hj2, transfers_push_init, transfers_init_data. reflexivity.
    + rewrite nth_error_app1.
      * rewrite Hj2, transfers_push_init, transfers_init_data. reflexivity.
      * apply nth_error_Some. rewrite Hj2. discriminate.
    + rewrite Hj2, transfers_push_init, transfers_init_data. reflexivity.
    + rewrite Hj2, transfers_push_init, transfers_init_data. reflexivity.
Qed.

Lemma transfer_log_append_only_witness :
  session_log (sessions (fst (transferCall true (Some "2002"%string)
                                (established_client "pbx")))) 0
    = [new_record "Blind" "2002" "refer" 0].
Proof.
  exact (proj1 (proj2 transfer_log_append_only true (Some "2002"%string)
                  (established_client "pbx") 0
                  (mkSession "Established" None None false) "2002"%string
                  eq_refl eq_refl eq_refl eq_refl)).
Defined.

End TransferFacts.

Module RetryFacts.
Import Retry.

(** C9.  With [maxRetries = 3]: the call of scheduleRetry that raises
    [retryCount] from [k - 1] to [k] (1 <= k <= 3) sets a timer of
    [retryDelay * 2^(k-1)] ms; once [retryCount] has reached 3 no timer
    is set and the counter goes back to 0.  From the constructor's
    values, a retried operation that keeps failing retryably is retried
    after 1000, 2000 and 4000 ms and then abandoned. *)
Theorem scheduleRetry_backoff :
  (forall k d ts, 1 <= k <= 3 ->
     scheduleRetry (mkClient (k - 1) 3 d ts)
     = mkClient k 3 d (ts ++ [d * 2 ^ (k - 1)]))
  /\ (forall k d ts, 3 <= k ->
     scheduleRetry (mkClient k 3 d ts) = mkClient 0 3 d ts)
  /\ fail_n 4 initial = mkClient 0 3 1000 [1000; 2000; 4000].
Proof.
  split; [|split].
  - intros k d ts Hk.
    destruct k as [|[|[|[|k]]]]; try lia; reflexivity.
  - intros k d ts Hk. unfold scheduleRetry. simpl.
    replace (k <? 3) with false by (symmetry; apply Nat.ltb_ge; exact Hk).
    reflexivity.
  - reflexivity.
Qed.

Lemma scheduleRetry_backoff_witness :
  scheduleRetry (mkClient 1 3 1000 [1000]) = mkClient 2 3 1000 [1000; 2000]
  /\ scheduleRetry (mkClient 3 3 1000 [1000; 2000; 4000])
     = mkClient 0 3 1000 [1000; 2000; 4000].
Proof.
  split.
  - exact (proj1 scheduleRetry_backoff 2 1000 [1000] ltac:(lia)).
  - exact (proj1 (proj2 scheduleRetry_backoff) 3 1000 [1000; 2000; 4000] ltac:(lia)).
Defined.

End RetryFacts.

Module DurationFacts.
Import Duration.
Local Open Scope Z_scope.

Lemma total_size_acc_nonneg (l : list nat) (a : Z) :
  0 <= a -> 0 <= fold_left (fun sum size => sum + Z.of_nat size) l a.
Proof.
  revert a; induction l as [|x l IH]; simpl; intros a Ha; [lia|].
  apply IH; lia.
Qed.

(** X1 (saveRecording, getCallDuration): with at least one recorded
    chunk and a clock that has not gone back since [callStartTime], the
    duration saveRecording uploads is at least one second; when the call
    lasted at least a second it is the elapsed time in whole seconds. *)
Theorem upload_duration_at_least_one (start : option Z) (now : Z)
    (chunks : list nat)
    (Hchunks : chunks <> [])
    (Hclock : forall t, start = Some t -> t <= now) :
  1 <= upload_duration start now chunks /\
  (forall t, start = Some t -> t <> 0 -> 1000 <= now - t ->
     upload_duration start now chunks = (now - t) / 1000).
Proof.
  unfold upload_duration, getCallDuration.
  destruct chunks as [|x l]; [congruence|]. simpl length.
  destruct start as [t|].
  - specialize (Hclock t eq_refl).
    destruct (Z.eqb_spec t 0) as [Ht|Ht].
    + simpl. split; [lia|]. intros t' E Ht'. inversion E; subst. congruence.
    + assert (0 <= (now - t) / 1000) by (apply Z.div_pos; lia).
      destruct (Z.eqb_spec ((now - t) / 1000) 0) as [Hz|Hz]; simpl.
      * split; [lia|]. intros t' E _ H1000. inversion E; subst.
        assert (1 <= (now - t') / 1000)
          by (apply Z.div_le_lower_bound; lia).
        lia.
      * split; [lia|]. intros t' E _ _. inversion E; subst. reflexivity.
  - simpl. split; [lia|]. intros t E; discriminate.
Qed.

Lemma upload_duration_at_least_one_witness :
  1 <= upload_duration (Some 1000) 1500 [5000%nat] /\
  upload_duration (Some 1000) 4500 [5000%nat] = 3.
Proof.
  split.
  - exact (proj1 (upload_duration_at_least_one (Some 1000) 1500 [5000%nat]
             ltac:(discriminate)
             ltac:(intros t E; inversion E; lia))).
  - exact (proj2 (upload_duration_at_least_one (Some 1000) 4500 [5000%nat]
             ltac:(discriminate)
             ltac:(intros t E; inversion E; lia)) 1000 eq_refl
             ltac:(discriminate) ltac:(lia)).
Defined.

End DurationFacts.

Module CallIdFacts.
Import CallId.

Definition trim_opt (h : jstr) : jstr :=
  match h with Some s => Some (trim s) | None => None end.

Lemma jstr_eqb_refl (a : jstr) : jstr_eqb a a = true.
Proof. destruct a; simpl; [apply String.eqb_refl | reflexivity]. Qed.

Lemma jstr_eqb_eq (a b : jstr) : jstr_eqb a b = true -> a = b.
Proof.
  destruct a, b; simpl; try discriminate; [|reflexivity].
  intros E. apply String.eqb_eq in E. subst. reflexivity.
Qed.

Lemma js_or_falsy (a b : jstr) : truthy a = false -> js_or a b = b.
Proof. unfold js_or. intros ->. reflexivity. Qed.

Lemma js_or_truthy (a b : jstr) : truthy a = true -> js_or a b = a.
Proof. unfold js_or. intros ->. reflexivity. Qed.

Lemma trim_empty : trim "" = ""%string.
Proof. reflexivity. Qed.

(** X2 (makeCall, handleIncomingCall): after either lookup,
    [this.sipCallId] is the first truthy value among the sources in the
    order the code reads them, and keeps its previous value, which may
    be the Call-ID of an earlier call, when none of them is truthy.
    Only the incoming path trims the headers, so a header made of white
    space is passed over there. *)
Theorem sipCallId_first_truthy (header reqCallId id h1 h2 stored : jstr) :
  store (makeCall_callId header reqCallId id) stored
    = js_or header (js_or reqCallId (js_or id stored)) /\
  store (incoming_callId h1 h2 reqCallId id) stored
    = js_or (trim_opt h1) (js_or (trim_opt h2) (js_or reqCallId (js_or id stored))).
Proof.
  split.
  - unfold store, makeCall_callId, js_or.
    repeat (match goal with
            | |- context [truthy ?x] =>
                lazymatch x with
                | context [truthy _] => fail
                | _ => let E := fresh "E" in destruct (truthy x) eqn:E
                end
            end; simpl in * );
    try reflexivity; try congruence.
  - unfold store, incoming_callId, trimmed_if_truthy, trim_opt.
    destruct h1 as [[|c1 r1]|]; destruct h2 as [[|c2 r2]|];
    unfold js_or; simpl; rewrite ?trim_empty;
    repeat match goal with
           | |- context [trim (String ?c ?r)] =>
               let t := fresh "t" in
               generalize (trim (String c r)) as t; intros [|? ?]
           end;
    repeat (match goal with
            | |- context [truthy ?x] =>
                lazymatch x with
                | context [truthy _] => fail
                | _ => let E := fresh "E" in destruct (truthy x) eqn:E
                end
            end; simpl in * );
    try reflexivity; try congruence.
Qed.

Lemma confirm_arms (c3 stored : jstr) (odoo : bool) :
  let '(stored', notified, arm) :=
    if truthy c3 && negb (jstr_eqb c3 stored) then (c3, odoo, Updated)
    else if truthy c3 && negb (truthy stored) then (c3, false, ConfirmedOnly)
    else (stored, false, Unchanged) in
  arm <> ConfirmedOnly /\
  (notified = true <-> odoo = true /\ jstr_eqb stored' stored = false).
Proof.
  destruct (truthy c3) eqn:T; simpl.
  - destruct (jstr_eqb c3 stored) eqn:Q; simpl.
    + apply jstr_eqb_eq in Q. subst c3. rewrite T. simpl.
      split; [discriminate|]. rewrite jstr_eqb_refl.
      split; [discriminate| intros [_ H]; discriminate].
    + split; [discriminate|]. rewrite Q.
      split; [intros ->; auto| intros [-> _]; reflexivity].
  - split; [discriminate|]. rewrite jstr_eqb_refl.
    split; [discriminate| intros [_ H]; discriminate].
Qed.

(** X3 (onCallEstablished): the [else if] arm of the confirmed Call-ID
    step never runs: a truthy confirmed ID that equals [this.sipCallId]
    makes [this.sipCallId] truthy.  Odoo's updateCallSipId is called
    exactly when the step changes [this.sipCallId] and the Odoo call ID
    and the service method are set. *)
Theorem confirm_callId_arms (dr : dialog_request) (h2 sid stored : jstr)
    (odoo : bool) :
  let '(stored', notified, arm) := onCallEstablished_callId dr h2 sid stored odoo in
  arm <> ConfirmedOnly /\
  (notified = true <-> odoo = true /\ jstr_eqb stored' stored = false).
Proof.
  unfold onCallEstablished_callId.
  destruct dr as [|h|]; [exact (confirm_arms _ _ _)|exact (confirm_arms _ _ _)|].
  split; [discriminate|]. rewrite jstr_eqb_refl.
  split; [discriminate| intros [_ H]; discriminate].
Qed.

(** X4 (onCallTerminated, updateCallDuration): onCallTerminated passes
    [this.odooCallId] as the only parameter updateCallDuration reads, so
    every duration update it sends carries the Odoo call ID as the
    duration, never the measured call duration; an update is sent
    exactly when that ID is positive and the service has the method. *)
Theorem terminated_sends_call_id_as_duration (svc : service)
    (odooCallId start : option Z) (now : Z) (header sid stored : jstr) :
  let rpcs := snd (onCallTerminated svc odooCallId start now header sid stored) in
  (forall i d, In (RpcUpdateCallDuration i d) rpcs ->
     odooCallId = Some i /\ d = Some i) /\
  (forall i, odooCallId = Some i ->
     (In (RpcUpdateCallDuration i (Some i)) rpcs <->
      (0 < i)%Z /\ has_updateCallDuration svc = true)).
Proof.
  unfold onCallTerminated, updateCallDuration; simpl.
  set (s2 := if negb (truthy (if truthy header then header else None))
             then js_or (js_or stored sid) None
             else if truthy header then header else None).
  assert (Hsip : forall i d,
    ~ In (RpcUpdateCallDuration i d)
        (if truthy s2 && has_hangupCall svc then [RpcHangupCall "normal" s2] else [])).
  { intros i d H. destruct (truthy s2 && has_hangupCall svc); simpl in H;
    [destruct H as [H|H]; [discriminate|contradiction]|contradiction]. }
  assert (Hh : forall i d,
    ~ In (RpcUpdateCallDuration i d)
        (if has_hangupCall svc then [RpcHangupCall "normal" s2] else [])).
  { intros i d H. destruct (has_hangupCall svc); simpl in H;
    [destruct H as [H|H]; [discriminate|contradiction]|contradiction]. }
  destruct odooCallId as [oid|].
  - destruct (Z.eqb_spec oid 0) as [Hz|Hz]; simpl.
    + split.
      * intros i d H. exfalso. exact (Hsip i d H).
      * intros i E. inversion E; subst. split; [intros H; exfalso; exact (Hsip _ _ H)|lia].
    + destruct (has_updateCallDuration svc) eqn:U; simpl.
      * destruct (Z.leb_spec oid 0) as [Hle|Hle]; simpl.
        -- split.
           ++ intros i d H. exfalso. exact (Hh i d H).
           ++ intros i E. inversion E; subst. split; [intros H; exfalso; exact (Hh _ _ H)|lia].
        -- split.
           ++ intros i d [H|H]; [inversion H; subst; auto|exfalso; exact (Hh i d H)].
           ++ intros i E. inversion E; subst. split; [intros _; split; [lia|reflexivity]|intros _; left; reflexivity].
      * split.
        -- intros i d H. exfalso. exact (Hsip i d H).
        -- intros i E. inversion E; subst. split; [intros H; exfalso; exact (Hsip _ _ H)|intros [_ H]; discriminate].
  - split.
    + intros i d H. exfalso. exact (Hsip i d H).
    + intros i E. discriminate.
Qed.

End CallIdFacts.

Module EstablishFacts.
Import Establish.

Lemma in_audio_tracks (t : track) (l : list (option track)) :
  In t (audio_tracks l) -> kind_of t = Audio /\ In (Some t) l.
Proof.
  induction l as [|[x|] r IH]; simpl; [tauto| |].
  - unfold is_audio. destruct (kind_of x) eqn:K; simpl.
    + intros [<-|H]; [auto|]. destruct (IH H); auto.
    + intros H. destruct (IH H); auto.
  - intros H. destruct (IH H); auto.
Qed.

Lemma in_usable (t : track) (l : list (option track)) :
  In t (usable l) ->
  kind_of t = Audio /\ enabled t = true /\ live t = true /\ In (Some t) l.
Proof.
  unfold usable. rewrite filter_In. intros [H E].
  apply andb_prop in E. destruct E as [E1 E2].
  destruct (in_audio_tracks t l H). auto.
Qed.

Lemma recording_stream_sources (e : env) (ss rs : list (option track))
    (s : stream) :
  recording_stream e ss rs = Some s ->
  forall t, In t (sources s) -> In t (usable ss) \/ In t (usable rs).
Proof.
  unfold recording_stream.
  destruct (0 <? length (usable ss))%nat, (0 <? length (usable rs))%nat,
    (mix_ok e); simpl; intros H; inversion H; subst; simpl;
    intros t Ht; try rewrite in_app_iff in Ht; tauto.
Qed.

(** X5 (onCallEstablished): startRecording is only ever called when
    recording is enabled, and the stream it records is made only of
    audio tracks of the call's senders and receivers that were enabled
    and live when the call was established, so a microphone muted at
    that moment is not recorded.  Conversely a recording starts whenever
    recording is enabled, one such track exists, and the session is
    still current with a live track when the 300 ms timer fires. *)
Theorem recording_uses_usable_tracks (e : env)
    (pc : option (list (option track) * list (option track))) :
  (forall s, recording_started e pc = Some s ->
     enable_recording e = true /\
     exists senders receivers, pc = Some (senders, receivers) /\
       forall t, In t (sources s) ->
         kind_of t = Audio /\ enabled t = true /\ live t = true /\
         (In (Some t) senders \/ In (Some t) receivers)) /\
  (forall senders receivers, pc = Some (senders, receivers) ->
     enable_recording e = true ->
     usable senders <> [] \/ usable receivers <> [] ->
     current_300 e = true -> live_300 e = true ->
     exists s, recording_started e pc = Some s).
Proof.
  split.
  - intros s. unfold recording_started.
    destruct pc as [[ss rs]|]; [|discriminate].
    destruct (recording_stream e ss rs) as [s'|] eqn:R; [|discriminate].
    destruct (enable_recording e) eqn:En; simpl; [|discriminate].
    intros H.
    assert (s' = s) as <-.
    { destruct (0 <? track_count s')%nat, (current_300 e), (live_300 e),
        (current_800 e), (live_800 e); simpl in H; congruence. }
    split; [reflexivity|]. exists ss, rs. split; [reflexivity|].
    intros t Ht. destruct (recording_stream_sources e ss rs s' R t Ht) as [U|U];
      destruct (in_usable t _ U) as (A & B & C & D); auto.
  - intros ss rs -> En Hne C L. unfold recording_started.
    assert (exists s, recording_stream e ss rs = Some s /\
                      (0 < track_count s)%nat) as [s [R T]].
    { unfold recording_stream.
      destruct (usable ss) as [|x l] eqn:Us;
        destruct (usable rs) as [|y r] eqn:Ur;
        [destruct Hne as [Hne|Hne]; congruence| | |];
        destruct (mix_ok e); eexists; (split; [reflexivity|]);
        cbn [track_count length]; lia. }
    rewrite R, En. apply Nat.ltb_lt in T. rewrite T, C, L. eexists; reflexivity.
Qed.

Definition mic : track := mkTrack 1 Audio true true.
Definition speaker : track := mkTrack 2 Audio true true.
Definition muted_mic : track := mkTrack 1 Audio false true.

Lemma recording_uses_usable_tracks_witness :
  recording_started (mkEnv true true true true false false)
    (Some ([Some muted_mic], [Some speaker])) = Some (Plain [speaker]) /\
  exists s, recording_started (mkEnv true true true true false false)
    (Some ([Some mic], [Some speaker])) = Some s.
Proof.
  split; [vm_compute; reflexivity|].
  pose proof (proj2 (recording_uses_usable_tracks
                       (mkEnv true true true true false false)
                       (Some ([Some mic], [Some speaker])))) as P.
  assert (N : usable [Some mic] <> []) by (vm_compute; discriminate).
  exact (P [Some mic] [Some speaker] eq_refl eq_refl (or_introl N) eq_refl eq_refl).
Defined.

Lemma set_audio_enabled_id (ts : list track) :
  (forall t, In t ts -> kind_of t = Audio /\ enabled t = true) ->
  set_audio_enabled true ts = ts.
Proof.
  induction ts as [|t r IH]; simpl; intros H; [reflexivity|].
  rewrite IH by auto.
  destruct (H t (or_introl eq_refl)) as [K E].
  unfold is_audio. rewrite K. destruct t; simpl in *; subst; reflexivity.
Qed.

Lemma set_audio_enabled_in (b : bool) (ts : list track) (t : track) :
  In t (set_audio_enabled b ts) -> is_audio t = true -> enabled t = b.
Proof.
  unfold set_audio_enabled. rewrite in_map_iff.
  intros [t0 [<- _]]. unfold is_audio.
  destruct t0 as [i [|] en lv]; simpl; congruence.
Qed.

Lemma set_audio_enabled_twice (b b' : bool) (ts : list track) :
  set_audio_enabled b (set_audio_enabled b' ts) = set_audio_enabled b ts.
Proof.
  induction ts as [|t r IH]; simpl; [reflexivity|]. rewrite IH.
  unfold is_audio. destruct t as [i [|] en lv]; reflexivity.
Qed.

(** X6 (onCallEstablished, muteMicrophone, unmuteMicrophone): once the
    call is established with a usable microphone track, muteMicrophone
    succeeds and disables every audio track of [this.localStream], and
    unmuteMicrophone afterwards gives back exactly the local stream the
    call was established with. *)
Theorem mute_unmute_round_trip (senders : list (option track))
    (old : option (list track)) (H : usable senders <> []) :
  let ls := established_localStream senders old in
  snd (muteMicrophone ls) = true /\
  (forall ts t, fst (muteMicrophone ls) = Some ts -> In t ts ->
     is_audio t = true -> enabled t = false) /\
  unmuteMicrophone (fst (muteMicrophone ls)) = (ls, true).
Proof.
  unfold established_localStream.
  destruct (usable senders) as [|x l] eqn:U; [congruence|].
  cbn [length Nat.ltb Nat.leb fst snd muteMicrophone unmuteMicrophone].
  split; [reflexivity|]. split.
  - intros ts t E Ht A. inversion E; subst ts.
    exact (set_audio_enabled_in false (x :: l) t Ht A).
  - rewrite set_audio_enabled_twice, set_audio_enabled_id; [reflexivity|].
    intros t Ht. rewrite <- U in Ht.
    destruct (in_usable t senders Ht) as (A & B & _); auto.
Qed.

Lemma mute_unmute_round_trip_witness :
  unmuteMicrophone (fst (muteMicrophone
    (established_localStream [Some mic] None))) = (Some [mic], true).
Proof.
  assert (N : usable [Some mic] <> []) by (vm_compute; discriminate).
  exact (proj2 (proj2 (mute_unmute_round_trip [Some mic] None N))).
Defined.

End EstablishFacts.

Module ErrorFacts.
Import Errors.

Lemma includes_nonempty (m n : string) :
  n <> EmptyString -> Call.includes m n = true -> m <> EmptyString.
Proof.
  intros Hn H ->. destruct n; [congruence|]. simpl in H. discriminate.
Qed.

(** X7 (formatError): formatError always yields a non-empty message,
    applying it twice gives the same error as applying it once, and on
    a plain Error it is the message mapping used in the makeCall
    model. *)
Theorem formatError_stable (e : error) :
  message (formatError e) <> EmptyString /\
  formatError (formatError e) = formatError e /\
  (forall m, formatError (mkError "Error" m) = mkError "Error" (Call.formatError m)).
Proof.
  split; [|split].
  - unfold formatError.
    destruct (String.eqb (name e) "NotAllowedError"); [discriminate|].
    destruct (String.eqb (name e) "NotFoundError"); [discriminate|].
    destruct (Call.includes (message e) "HTTPS") eqn:I.
    + assert (N : "HTTPS"%string <> EmptyString) by discriminate.
      exact (includes_nonempty (message e) "HTTPS" N I).
    + simpl. destruct (message e); discriminate.
  - destruct (String.eqb (name e) "NotAllowedError") eqn:NA.
    + assert (formatError e = mkError "Error"
                "Microphone access denied. Please allow microphone access.") as ->
        by (unfold formatError; rewrite NA; reflexivity).
      reflexivity.
    + destruct (String.eqb (name e) "NotFoundError") eqn:NF.
      * assert (formatError e = mkError "Error"
                  "No microphone found. Please connect a microphone.") as ->
          by (unfold formatError; rewrite NA, NF; reflexivity).
        reflexivity.
      * destruct (Call.includes (message e) "HTTPS") eqn:I.
        -- assert (formatError e = e) as ->
             by (unfold formatError; rewrite NA, NF, I; reflexivity).
           unfold formatError; rewrite NA, NF, I; reflexivity.
        -- assert (formatError e = mkError "Error"
                     (match message e with EmptyString => "An error occurred"
                      | m => m end)) as ->
             by (unfold formatError; rewrite NA, NF, I; reflexivity).
           unfold formatError; simpl name; simpl message.
           destruct (Call.includes (match message e with
                       | EmptyString => "An error occurred" | m => m end) "HTTPS");
             [reflexivity|].
           destruct (message e); reflexivity.
  - intros m. unfold formatError, Call.formatError. simpl.
    destruct (Call.includes m "HTTPS"); [reflexivity|]. destruct m; reflexivity.
Qed.

End ErrorFacts.

Module HoldMusicFacts.
Import HoldMusic.

Lemma find_music_in (musicId : Z) (l : list music) (m : music) :
  find_music musicId l = Some m -> In m l.
Proof.
  induction l as [|h t IH]; simpl; [discriminate|].
  destruct (Z.eqb (music_id h) musicId).
  - intros E; injection E as <-; left; reflexivity.
  - intros E; right; exact (IH E).
Qed.

Lemma string_prefix_app (s t : string) : String.prefix s (s ++ t) = true.
Proof.
  induction s as [|c s IH]; simpl.
  - destruct t; reflexivity.
  - destruct (Ascii.ascii_dec c c) as [_|n]; [exact IH|congruence].
Qed.

Lemma includes_of_prefix (h n : string) :
  String.prefix n h = true -> Call.includes h n = true.
Proof.
  intros P.
  assert (E : Call.includes h n = String.prefix n h || match h with
              | EmptyString => false
              | String _ rest => Call.includes rest n end)
    by (destruct h; reflexivity).
  rewrite E, P; reflexivity.
Qed.

(** The default music is always a base64 WAV data URL. *)
Lemma default_is_data_url (b64 : option string) :
  Call.includes (createDefaultHoldMusic b64) "data:audio/wav;base64" = true.
Proof.
  apply includes_of_prefix.
  destruct b64 as [b|]; [|reflexivity].
  change (String.prefix "data:audio/wav;base64"
            ("data:audio/wav;base64" ++ ("," ++ b)) = true).
  apply string_prefix_app.
Qed.

Lemma getHoldMusicUrl_cases (r : list_response) (musicId : Z)
    (b64 : option string) :
  getHoldMusicUrl r musicId b64 = createDefaultHoldMusic b64
  \/ exists res ms m,
       result_of r = Some res /\ success res = true
       /\ music_list res = Some ms /\ In m ms
       /\ url m = getHoldMusicUrl r musicId b64
       /\ url m <> EmptyString /\ is_file_url (url m) = true.
Proof.
  unfold getHoldMusicUrl.
  destruct (result_of r) as [res|] eqn:R; [|left; reflexivity].
  destruct (success res) eqn:S; [|left; reflexivity].
  destruct (music_list res) as [[|m0 rest]|] eqn:M; try (left; reflexivity).
  set (music := match find_music musicId (m0 :: rest) with
                | Some m => m | None => m0 end).
  assert (I : In music (m0 :: rest)).
  { unfold music; destruct (find_music musicId (m0 :: rest)) eqn:F.
    - exact (find_music_in _ _ _ F).
    - left; reflexivity. }
  destruct (negb (String.eqb (url music) "") && is_file_url (url music)) eqn:U.
  - apply andb_prop in U as [U1 U2].
    right; exists res, (m0 :: rest), music.
    repeat split; auto.
    intros E; rewrite E in U1; discriminate.
  - left; reflexivity.
Qed.

Lemma real_music_not_default (b64 : option string) :
  real_music (createDefaultHoldMusic b64) = false.
Proof.
  unfold real_music; rewrite default_is_data_url.
  apply andb_false_r.
Qed.

Lemma fromFile_cases (u : string) (loads : bool) (s : hold_stream) :
  createHoldMusicFromFile u loads = Some s ->
  s = FileStream u \/ s = DataUrlStream u.
Proof.
  unfold createHoldMusicFromFile.
  destruct (String.prefix "data:audio/wav" u), loads; intros E;
    try discriminate; injection E as <-; auto.
Qed.

Lemma stream_from_url (r : list_response) (b64 : option string)
    (loads : bool) (s : hold_stream) :
  real_music (getHoldMusicUrl r 1 b64) = true ->
  createHoldMusicFromFile (getHoldMusicUrl r 1 b64) loads = Some s ->
  exists u res ms m,
    (s = FileStream u \/ s = DataUrlStream u)
    /\ result_of r = Some res /\ music_list res = Some ms /\ In m ms
    /\ url m = u /\ is_file_url u = true.
Proof.
  intros R F.
  destruct (getHoldMusicUrl_cases r 1 b64) as [D | (res & ms & m & E1 & _ & E3 & E4 & E5 & _ & E7)].
  - rewrite D, real_music_not_default in R; discriminate.
  - exists (getHoldMusicUrl r 1 b64), res, ms, m.
    split; [exact (fromFile_cases _ _ _ F)|].
    rewrite <- E5; auto.
Qed.

(** X8: getHoldMusicUrl returns either the default data URL or the url
    of an entry of the list that points to an uploaded hold-music file.
    The entry consulted is the one with the requested id (the first
    entry when no id matches); when that url is not a file url the
    default is returned even if another entry is a file. *)
Theorem hold_music_url_choice (r : list_response) (musicId : Z)
    (b64 : option string) :
  (getHoldMusicUrl r musicId b64 = createDefaultHoldMusic b64
   \/ exists res ms m,
        result_of r = Some res /\ success res = true
        /\ music_list res = Some ms /\ In m ms
        /\ url m = getHoldMusicUrl r musicId b64
        /\ is_file_url (url m) = true)
  /\ (forall res ms m,
        result_of r = Some res -> music_list res = Some ms ->
        find_music musicId ms = Some m -> is_file_url (url m) = false ->
        getHoldMusicUrl r musicId b64 = createDefaultHoldMusic b64)
  /\ (forall res m0 rest,
        result_of r = Some res -> music_list res = Some (m0 :: rest) ->
        find_music musicId (m0 :: rest) = None ->
        is_file_url (url m0) = false ->
        getHoldMusicUrl r musicId b64 = createDefaultHoldMusic b64).
Proof.
  split; [|split].
  - destruct (getHoldMusicUrl_cases r musicId b64)
      as [D | (res & ms & m & E1 & E2 & E3 & E4 & E5 & _ & E7)].
    + left; exact D.
    + right; exists res, ms, m; repeat split; assumption.
  - intros res ms m R M F U.
    unfold getHoldMusicUrl; rewrite R.
    destruct (success res); [|reflexivity].
    rewrite M.
    destruct ms as [|m0 rest]; [discriminate|].
    rewrite F, U, andb_false_r; reflexivity.
  - intros res m0 rest R M F U.
    unfold getHoldMusicUrl; rewrite R.
    destruct (success res); [|reflexivity].
    rewrite M, F, U, andb_false_r; reflexivity.
Qed.

(** X9: createHoldMusicStream never plays the generated default music:
    what it resolves to is the tone or the url of a hold-music file
    listed by the server. When the first file fails to load and the
    second lookup also gives a file that fails, the failure propagates
    and the tone is not tried. *)
Theorem hold_music_stream_sources (e : env) :
  (forall s, createHoldMusicStream e = Some s ->
     s = ToneStream
     \/ exists u res ms m,
          (s = FileStream u \/ s = DataUrlStream u)
          /\ (result_of (list1 e) = Some res \/ result_of (list2 e) = Some res)
          /\ music_list res = Some ms /\ In m ms
          /\ url m = u /\ is_file_url u = true)
  /\ (real_music (getHoldMusicUrl (list1 e) 1 (b64_1 e)) = true ->
      load1 e = false ->
      real_music (getHoldMusicUrl (list2 e) 1 (b64_2 e)) = true ->
      load2 e = false ->
      createHoldMusicStream e = None).
Proof.
  split.
  - intros s.
    unfold createHoldMusicStream.
    destruct (real_music (getHoldMusicUrl (list1 e) 1 (b64_1 e))) eqn:R1.
    + destruct (createHoldMusicFromFile _ (load1 e)) as [s1|] eqn:F1.
      * intros E; injection E as <-.
        right.
        destruct (stream_from_url _ _ _ _ R1 F1)
          as (u & res & ms & m & H1 & H2 & H3 & H4 & H5 & H6).
        exists u, res, ms, m; auto 10.
      * destruct (real_music (getHoldMusicUrl (list2 e) 1 (b64_2 e))) eqn:R2.
        -- intros F2; right.
           destruct (stream_from_url _ _ _ _ R2 F2)
             as (u & res & ms & m & H1 & H2 & H3 & H4 & H5 & H6).
           exists u, res, ms, m; auto 10.
        -- unfold createHoldMusicTone; destruct (tone_ok e); intros E;
             [injection E as <-; left; reflexivity | discriminate].
    + unfold createHoldMusicTone; destruct (tone_ok e); intros E;
        [injection E as <-; left; reflexivity | discriminate].
  - intros R1 L1 R2 L2.
    unfold createHoldMusicStream; rewrite R1.
    assert (FF : forall u, createHoldMusicFromFile u false = None).
    { intros u; unfold createHoldMusicFromFile;
        destruct (String.prefix "data:audio/wav" u); reflexivity. }
    rewrite L1, FF, R2, L2, FF; reflexivity.
Qed.

End HoldMusicFacts.

Module WavFacts.
Import Wav.

Lemma length_set_nth (k : nat) (x : Z) (l : list Z) :
  length (set_nth k x l) = length l.
Proof.
  revert k; induction l as [|h t IH]; intros [|k]; simpl; auto.
Qed.

Lemma length_write (off : nat) (bs l : list Z) :
  length (write off bs l) = length l.
Proof.
  revert off l; induction bs as [|b bs IH]; intros off l; simpl; auto.
  rewrite IH; apply length_set_nth.
Qed.

Lemma length_write_samples {N} (pcm16 : N -> Z) (b : audio_buffer N)
    (n : nat) : forall i off l,
  length (write_samples pcm16 b i n off l) = length l.
Proof.
  induction n as [|n IH]; intros i off l; cbn [write_samples]; auto.
  rewrite IH; apply length_write.
Qed.

Lemma set_nth_app_r (p t : list Z) (k : nat) (x : Z) :
  set_nth (length p + k) x (p ++ t) = p ++ set_nth k x t.
Proof.
  induction p as [|h p IH]; simpl; [reflexivity|].
  rewrite IH; reflexivity.
Qed.

Lemma write_app_r (p : list Z) (bs : list Z) :
  forall off t, write (length p + off) bs (p ++ t) = p ++ write off bs t.
Proof.
  induction bs as [|b bs IH]; intros off t; simpl; [reflexivity|].
  rewrite set_nth_app_r, <- Nat.add_succ_r; apply IH.
Qed.

Lemma write_samples_app_r {N} (pcm16 : N -> Z) (b : audio_buffer N)
    (p : list Z) (n : nat) :
  forall i off t,
  write_samples pcm16 b i n (length p + off) (p ++ t)
  = p ++ write_samples pcm16 b i n off t.
Proof.
  induction n as [|n IH]; intros i off t; cbn [write_samples]; [reflexivity|].
  rewrite write_app_r, <- Nat.add_assoc; apply IH.
Qed.

(** The 44 header bytes encodeWAV writes for a buffer of [n] frames. *)
Definition wav_header (n : nat) : list Z :=
  char_codes "RIFF" ++ le_bytes 4 (36 + Z.of_nat n * 2)
  ++ char_codes "WAVE" ++ char_codes "fmt " ++ le_bytes 4 16
  ++ le_bytes 2 1 ++ le_bytes 2 1 ++ le_bytes 4 44100 ++ le_bytes 4 88200
  ++ le_bytes 2 2 ++ le_bytes 2 16 ++ char_codes "data"
  ++ le_bytes 4 (Z.of_nat n * 2).

Lemma encodeWAV_split {N} (pcm16 : N -> Z) (b : audio_buffer N) :
  encodeWAV pcm16 b
  = wav_header (blength b)
    ++ write_samples pcm16 b 0 (blength b) 0 (repeat 0%Z (blength b * 2)).
Proof.
  rewrite <- write_samples_app_r.
  replace (length (wav_header (blength b)) + 0) with 44 by reflexivity.
  unfold encodeWAV; f_equal.
Qed.

Lemma decode_le (k : nat) : forall v,
  decode (le_bytes k v) = (v mod 2 ^ (8 * Z.of_nat k))%Z.
Proof.
  induction k as [|k IH]; intros v.
  - simpl; rewrite Z.mod_1_r; reflexivity.
  - cbn [le_bytes decode]; rewrite IH.
    replace (8 * Z.of_nat (S k))%Z with (8 + 8 * Z.of_nat k)%Z by lia.
    rewrite Z.pow_add_r by lia.
    rewrite (Z.rem_mul_r v (2 ^ 8) (2 ^ (8 * Z.of_nat k))).
    + reflexivity.
    + lia.
    + apply Z.pow_pos_nonneg; lia.
Qed.

Lemma length_encodeWAV {N} (pcm16 : N -> Z) (b : audio_buffer N) :
  length (encodeWAV pcm16 b) = 44 + blength b * 2.
Proof.
  rewrite encodeWAV_split, length_app, length_write_samples, repeat_length.
  reflexivity.
Qed.

Lemma set_nth_zeros (k L : nat) :
  set_nth k 0%Z (repeat 0%Z L) = repeat 0%Z L.
Proof.
  revert k; induction L as [|L IH]; intros [|k]; simpl; auto.
  rewrite IH; reflexivity.
Qed.

Lemma write_samples_undefined {N} (pcm16 : N -> Z) (m n : nat) :
  forall i off L,
  write_samples pcm16 (web_audio_buffer m) i n off (repeat 0%Z L)
  = repeat 0%Z L.
Proof.
  induction n as [|n IH]; intros i off L; cbn [write_samples]; [reflexivity|].
  assert (E : le_bytes 2 (sample_of pcm16 (bindex (web_audio_buffer m) i))
              = [0; 0]%Z) by reflexivity.
  rewrite E; cbn [write].
  rewrite !set_nth_zeros; apply IH.
Qed.

Lemma firstn_split_app (h r : list Z) : firstn (length h) (h ++ r) = h.
Proof. induction h as [|x h IH]; simpl; [reflexivity|]; rewrite IH; reflexivity. Qed.

Lemma skipn_split_app (h r : list Z) : skipn (length h) (h ++ r) = r.
Proof. induction h as [|x h IH]; simpl; [reflexivity|]; exact IH. Qed.

(** X10: the header encodeWAV writes always declares a PCM stream of
    one channel at 44100 Hz in 16-bit samples (byte rate 88200, block
    align 2), and its two size fields match the bytes actually written:
    the RIFF size is the total length minus 8 and the data size the
    total length minus 44 (modulo 2^32), for any buffer. *)
Theorem encodeWAV_header {N} (pcm16 : N -> Z) (b : audio_buffer N) :
  let w := encodeWAV pcm16 b in
  length w = 44 + blength b * 2
  /\ firstn 4 w = char_codes "RIFF"
  /\ firstn 4 (skipn 8 w) = char_codes "WAVE"
  /\ firstn 4 (skipn 12 w) = char_codes "fmt "
  /\ firstn 4 (skipn 36 w) = char_codes "data"
  /\ read_le w 16 4 = 16%Z /\ read_le w 20 2 = 1%Z /\ read_le w 22 2 = 1%Z
  /\ read_le w 24 4 = 44100%Z /\ read_le w 28 4 = 88200%Z
  /\ read_le w 32 2 = 2%Z /\ read_le w 34 2 = 16%Z
  /\ read_le w 4 4 = ((Z.of_nat (length w) - 8) mod 2 ^ 32)%Z
  /\ read_le w 40 4 = ((Z.of_nat (length w) - 44) mod 2 ^ 32)%Z.
Proof.
  intros w.
  assert (L : length w = 44 + blength b * 2) by apply length_encodeWAV.
  assert (W : w = wav_header (blength b)
                  ++ write_samples pcm16 b 0 (blength b) 0
                       (repeat 0%Z (blength b * 2)))
    by apply encodeWAV_split.
  rewrite L.
  replace (Z.of_nat (44 + blength b * 2) - 8)%Z
    with (36 + Z.of_nat (blength b) * 2)%Z by lia.
  replace (Z.of_nat (44 + blength b * 2) - 44)%Z
    with (Z.of_nat (blength b) * 2)%Z by lia.
  rewrite W.
  repeat split; try reflexivity.
  - transitivity (decode (le_bytes 4 (36 + Z.of_nat (blength b) * 2)));
      [reflexivity|apply decode_le].
  - transitivity (decode (le_bytes 4 (Z.of_nat (blength b) * 2)));
      [reflexivity|apply decode_le].
Qed.

(** X11: the default hold music is silent. createDefaultHoldMusic fills
    the channel data of an AudioBuffer but encodeWAV reads [buffer[i]],
    which is undefined, so every sample after the 44-byte header is
    zero, whatever the sample conversion; the header still declares
    44100 Hz for the context's sample rate. *)
Theorem default_hold_music_silent {N} (pcm16 : N -> Z) (sampleRate : nat) :
  let w := default_hold_music_wav pcm16 sampleRate in
  firstn 44 w = wav_header (sampleRate * 30)
  /\ skipn 44 w = repeat 0%Z (sampleRate * 30 * 2)
  /\ read_le w 24 4 = 44100%Z.
Proof.
  intros w.
  assert (W : w = wav_header (sampleRate * 30)
                  ++ repeat 0%Z (sampleRate * 30 * 2)).
  { unfold w, default_hold_music_wav.
    rewrite encodeWAV_split; simpl blength.
    rewrite write_samples_undefined; reflexivity. }
  rewrite W.
  assert (Hl : length (wav_header (sampleRate * 30)) = 44) by reflexivity.
  split; [|split].
  - rewrite <- Hl; apply firstn_split_app.
  - rewrite <- Hl; apply skipn_split_app.
  - reflexivity.
Qed.

End WavFacts.

Module CallStateFacts.
Import CallState.

Definition single_interval (c : client) : Prop :=
  active c = match durationInterval c with Some i => [i] | None => [] end.

Lemma clear_single (i : nat) : clearInterval i [i] = [].
Proof.
  unfold clearInterval; simpl.
  destruct (Nat.eq_dec i i); [reflexivity|congruence].
Qed.

Lemma stop_clears (c : client) :
  single_interval c ->
  active (stopCallDurationTracking c) = []
  /\ durationInterval (stopCallDurationTracking c) = None.
Proof.
  unfold single_interval, stopCallDurationTracking.
  destruct (durationInterval c) as [i|] eqn:D; intros H; simpl.
  - rewrite H, clear_single; auto.
  - rewrite H, D; auto.
Qed.

Lemma stop_single (c : client) :
  single_interval c -> single_interval (stopCallDurationTracking c).
Proof.
  intros H; destruct (stop_clears c H) as [A D].
  unfold single_interval; rewrite A, D; reflexivity.
Qed.

Lemma start_single (c : client) :
  single_interval c -> single_interval (startCallDurationTracking c).
Proof.
  unfold single_interval, startCallDurationTracking.
  destruct (durationInterval c) as [i|]; intros H; simpl.
  - rewrite H, clear_single; reflexivity.
  - rewrite H; reflexivity.
Qed.

Lemma step_single (e : event) (c : client) :
  single_interval c -> single_interval (step e c).
Proof.
  intros H; destruct e as [s now|i now|]; cbn [step].
  - unfold updateCallState.
    destruct (String.eqb s "ringing"); [exact H|].
    destruct (String.eqb s "connected");
      [exact (start_single (set_state s c) H)|].
    destruct (String.eqb s "ended" || String.eqb s "idle");
      [exact (stop_single (set_state s c) H)|exact H].
  - unfold tick.
    destruct (in_dec Nat.eq_dec i (active c)); [|exact H].
    destruct (callStartTime c); exact H.
  - destruct (stop_clears c H) as [A D].
    unfold single_interval, cleanup; simpl; rewrite A, D; reflexivity.
Qed.

Lemma run_single (es : list event) : forall c,
  single_interval c -> single_interval (run es c).
Proof.
  induction es as [|e es IH]; intros c H; simpl; [exact H|].
  apply IH, step_single, H.
Qed.

(** X12: whatever sequence of updateCallState calls, interval ticks and
    cleanups the client goes through, at most one duration interval is
    running, and it is the one [durationInterval] names. Moving to
    'ended' or 'idle', or cleanup(), leaves no interval running. *)
Theorem duration_timer_single (es : list event) :
  let c := run es initial in
  active c = match durationInterval c with Some i => [i] | None => [] end
  /\ (forall now, active (step (EUpdate "ended" now) c) = []
                  /\ active (step (EUpdate "idle" now) c) = [])
  /\ active (step ECleanup c) = [].
Proof.
  intros c.
  assert (H : single_interval c) by (apply run_single; reflexivity).
  split; [exact H|split].
  - intros now; split.
    + change (step (EUpdate "ended" now) c)
        with (stopCallDurationTracking (set_state "ended" c)).
      exact (proj1 (stop_clears (set_state "ended" c) H)).
    + change (step (EUpdate "idle" now) c)
        with (stopCallDurationTracking (set_state "idle" c)).
      exact (proj1 (stop_clears (set_state "idle" c) H)).
  - exact (proj1 (stop_clears c H)).
Qed.

End CallStateFacts.

Module WebhookFacts.
Import Webhook.

(** X13: in handleWebhookNotification the [type] field is read only
    when [event] is falsy, so a truthy [event] decides alone. A
    notification with neither [extension] nor [user], or whose
    forwarding to the systray rejects, leaves [callState] unchanged. *)
Theorem webhook_event_precedence (sys : option bool) (n : notification)
    (s : string) :
  (truthy (event n) = true ->
   forall t, handleWebhookNotification sys n s
             = handleWebhookNotification sys
                 (mkNotification (extension n) (user n) (event n) t) s)
  /\ (truthy (extension n) = false -> truthy (user n) = false ->
      handleWebhookNotification sys n s = s)
  /\ handleWebhookNotification (Some false) n s = s.
Proof.
  split; [|split].
  - intros Ev t.
    unfold handleWebhookNotification, js_or; cbn [extension user event type].
    rewrite Ev; reflexivity.
  - intros Ex Us.
    unfold handleWebhookNotification, js_or.
    rewrite Ex, Us.
    destruct sys as [[|]|]; reflexivity.
  - reflexivity.
Qed.

End WebhookFacts.

Module HangupFacts.
Import Hangup.

(** X15: disconnect() always ends the current call, returns true exactly
    when the user agent's unregister() and stop() (those it calls)
    succeed, and only then clears [isRegistered]; on a failure
    [isRegistered] keeps its value. *)
Theorem disconnect_result (hangup_ok has_ua registerer unregister_ok stop_ok : bool)
    (c : client) :
  let r := disconnect hangup_ok has_ua registerer unregister_ok stop_ok c in
  currentSession (fst r) = None
  /\ snd r = negb (has_ua && registerer && negb unregister_ok)
             && negb (has_ua && negb stop_ok)
  /\ isRegistered (fst r) = (if snd r then false else isRegistered c).
Proof.
  unfold disconnect, hangup.
  destruct (currentSession c) eqn:E;
    destruct has_ua, registerer, unregister_ok, stop_ok; simpl;
    rewrite ?E; auto.
Qed.

End HangupFacts.

Module HoldControlFacts.
Import HoldControl.

(** X16: the hold-music panel (VoipHoldMusicManager.startHoldMusic)
    sets [isPlaying] whenever the client has a current call, whatever
    the client's startHoldMusic returns. That method returns true as
    soon as Web Audio works; the music reaches the call only when the
    session has a peer connection, the client a local stream, the peer
    connection an audio sender, and replaceTrack succeeds. *)
Theorem hold_music_indicator (voipClient session : bool) (e : env)
    (isPlaying : bool) :
  manager_startHoldMusic voipClient session e isPlaying
    = (if voipClient && session then true else isPlaying)
  /\ fst (startHoldMusic session e) = session && webaudio_ok e
  /\ snd (startHoldMusic session e)
     = session && webaudio_ok e && has_peer e && has_localStream e
       && has_audioSender e && replace_ok e.
Proof.
  unfold manager_startHoldMusic, startHoldMusic, injectHoldMusicIntoCall.
  destruct voipClient, session, (webaudio_ok e), (has_peer e),
    (has_localStream e), (has_audioSender e), (replace_ok e);
    split; try split; reflexivity.
Qed.

End HoldControlFacts.

Module RecordingStartFacts.
Import Recording RecordingStart.

(** X17: startRecording(stream) is ignored while the recorder is
    active. Otherwise it empties [recordedChunks] and clears
    [recordingSaved] and [recordingSaving] before anything can fail, so
    chunks still held (for instance after a failed upload) are dropped
    even when no recorder starts; a recorder runs only when the stream
    has a live enabled track and the MediaRecorder is created and
    started. Uploads already in flight are not touched. *)
Theorem startRecording_resets (active_tracks : nat) (create_ok start_ok : bool)
    (c : client) :
  (recorderActive c = true -> startRecording active_tracks create_ok start_ok c = c)
  /\ (recorderActive c = false ->
      let c' := startRecording active_tracks create_ok start_ok c in
      recordedChunks c' = [] /\ recordingSaved c' = false
      /\ recordingSaving c' = false
      /\ recorderActive c' = negb (Nat.eqb active_tracks 0) && create_ok && start_ok
      /\ inflight c' = inflight c /\ postsOk c' = postsOk c).
Proof.
  unfold startRecording.
  split; intros A; rewrite A; [reflexivity|].
  destruct (Nat.eqb active_tracks 0), create_ok, start_ok; simpl;
    rewrite ?A; repeat split.
Qed.

End RecordingStartFacts.

Module WaveFacts.
Import Wav Wave WavFacts.

Section Facts.

Variable N : Type.
Variable pcm16 : N -> Z.

Lemma write_into_zeros (bs : list Z) : forall m,
  List.length bs <= m ->
  write 0 bs (repeat 0%Z m) = bs ++ repeat 0%Z (m - List.length bs).
Proof.
  induction bs as [|b bs IH]; intros m Hm; simpl.
  - rewrite Nat.sub_0_r; reflexivity.
  - destruct m as [|m]; simpl in Hm; [lia|].
    simpl.
    change (write 1 bs (b :: repeat 0%Z m))
      with (write (List.length [b] + 0) bs ([b] ++ repeat 0%Z m)).
    rewrite write_app_r, IH by lia; reflexivity.
Qed.

(** The samples of frame [f], in channel order. *)
Definition frame (s : source N) (f : nat) : list Z :=
  map (fun ch => pcm16 (channelData s ch f)) (seq 0 (numberOfChannels s)).

Lemma length_flat_map_le2 (l : list Z) :
  List.length (flat_map (le_bytes 2) l) = 2 * List.length l.
Proof.
  induction l as [|x l IH]; cbn [flat_map]; [reflexivity|].
  rewrite length_app, IH; simpl; lia.
Qed.

Lemma write_frame_fill (s : source N) (off : nat) (k : nat) :
  forall i p m,
  2 * k <= m ->
  write_frame pcm16 s i k off (List.length p) (p ++ repeat 0%Z m)
  = (List.length p + 2 * k,
     p ++ flat_map (le_bytes 2)
            (map (fun ch => pcm16 (channelData s ch off)) (seq i k))
       ++ repeat 0%Z (m - 2 * k)).
Proof.
  induction k as [|k IH]; intros i p m Hm; cbn [write_frame].
  - rewrite Nat.add_0_r, Nat.sub_0_r; reflexivity.
  - set (v := pcm16 (channelData s i off)).
    replace (List.length p) with (List.length p + 0) at 2 by lia.
    rewrite write_app_r, write_into_zeros by (simpl; lia).
    replace (List.length p + 2)
      with (List.length (p ++ le_bytes 2 v)) by (rewrite length_app; reflexivity).
    rewrite app_assoc, IH by (simpl; lia).
    rewrite length_app; cbn [List.length le_bytes].
    f_equal; [lia|].
    rewrite <- !app_assoc.
    replace (m - 2 - 2 * k) with (m - 2 * S k) by lia.
    reflexivity.
Qed.

Lemma flat_map_empty_frames (s : source N) (a n : nat) :
  numberOfChannels s = 0 -> flat_map (frame s) (seq a n) = [].
Proof.
  intros H; revert a; induction n as [|n IH]; intros a; simpl; [reflexivity|].
  unfold frame at 1; rewrite H; simpl; apply IH.
Qed.

Lemma write_frames_fill (s : source N) (fuel : nat) :
  forall off p,
  write_frames pcm16 s
    (List.length p + fuel * numberOfChannels s * 2) fuel off
    (List.length p) (p ++ repeat 0%Z (fuel * numberOfChannels s * 2))
  = (List.length p + fuel * numberOfChannels s * 2,
     p ++ flat_map (le_bytes 2) (flat_map (frame s) (seq off fuel))).
Proof.
  destruct (numberOfChannels s) as [|nc] eqn:Hnc.
  - intros off p.
    rewrite flat_map_empty_frames by exact Hnc.
    destruct fuel as [|fuel]; cbn [write_frames];
      rewrite !Nat.mul_0_r, ?Nat.mul_0_l, ?Nat.add_0_r; simpl; [reflexivity|].
    rewrite Nat.ltb_irrefl; reflexivity.
  - induction fuel as [|fuel IH]; intros off p; cbn [write_frames].
    + simpl; rewrite !Nat.add_0_r; reflexivity.
    + replace (List.length p <? List.length p + S fuel * S nc * 2) with true
        by (symmetry; apply Nat.ltb_lt; lia).
      rewrite Hnc.
      rewrite write_frame_fill by lia.
      replace (S fuel * S nc * 2 - 2 * S nc) with (fuel * S nc * 2) by lia.
      set (p' := p ++ flat_map (le_bytes 2)
                   (map (fun ch => pcm16 (channelData s ch off)) (seq 0 (S nc)))).
      assert (Lp : List.length p' = List.length p + 2 * S nc).
      { unfold p'; rewrite length_app, length_flat_map_le2, length_map,
          length_seq; reflexivity. }
      replace (List.length p + S fuel * S nc * 2)
        with (List.length p' + fuel * S nc * 2) by lia.
      replace (List.length p + 2 * S nc) with (List.length p') by lia.
      rewrite app_assoc.
      fold p'.
      rewrite IH.
      f_equal.
      unfold p'; rewrite <- app_assoc; f_equal.
      cbn [seq flat_map]; rewrite flat_map_app.
      unfold frame; rewrite Hnc; reflexivity.
Qed.

(** The 44 header bytes bufferToWave writes, with [length] written
    [44 + len * numOfChan * 2]. *)
Definition wave_header (s : source N) (len : nat) : list Z :=
  let numOfChan := numberOfChannels s in
  let length := 44 + len * numOfChan * 2 in
  le_bytes 4 0x46464952 ++ le_bytes 4 (Z.of_nat length - 8)
  ++ le_bytes 4 0x45564157 ++ le_bytes 4 0x20746d66 ++ le_bytes 4 16
  ++ le_bytes 2 1 ++ le_bytes 2 (Z.of_nat numOfChan)
  ++ le_bytes 4 (sampleRate s)
  ++ le_bytes 4 (sampleRate s * 2 * Z.of_nat numOfChan)
  ++ le_bytes 2 (Z.of_nat numOfChan * 2) ++ le_bytes 2 16
  ++ le_bytes 4 0x61746164 ++ le_bytes 4 (Z.of_nat length - 40 - 4).

Lemma bufferToWave_split (s : source N) (len : nat) :
  bufferToWave_run pcm16 s len
  = (44 + len * numberOfChannels s * 2,
     wave_header s len
     ++ flat_map (le_bytes 2) (flat_map (frame s) (seq 0 len))).
Proof.
  unfold bufferToWave_run; cbv zeta.
  rewrite (Nat.add_comm (len * numberOfChannels s * 2) 44).
  transitivity
    (write_frames pcm16 s
       (List.length (wave_header s len) + len * numberOfChannels s * 2) len 0
       (List.length (wave_header s len))
       (wave_header s len ++ repeat 0%Z (len * numberOfChannels s * 2))).
  - reflexivity.
  - rewrite write_frames_fill; reflexivity.
Qed.

Lemma read_le_skip (h d : list Z) (j k : nat) :
  read_le (h ++ d) (List.length h + j) k = read_le d j k.
Proof.
  unfold read_le; f_equal; f_equal.
  induction h as [|x h IH]; simpl; [reflexivity|exact IH].
Qed.

Lemma read_sample (l : list Z) : forall k,
  k < List.length l ->
  read_le (flat_map (le_bytes 2) l) (2 * k) 2 = (nth k l 0 mod 2 ^ 16)%Z.
Proof.
  induction l as [|x l IH]; intros k Hk; simpl in Hk; [lia|].
  destruct k as [|k].
  - unfold read_le; cbn [flat_map le_bytes app skipn firstn].
    transitivity (decode (le_bytes 2 x)); [reflexivity|].
    rewrite decode_le; reflexivity.
  - replace (2 * S k) with (S (S (2 * k))) by lia.
    unfold read_le in *; cbn [flat_map le_bytes app skipn].
    rewrite IH by lia; reflexivity.
Qed.

Lemma nth_map_seq0 (g : nat -> Z) (n k : nat) (d : Z) :
  k < n -> nth k (map g (seq 0 n)) d = g k.
Proof.
  intros H.
  rewrite nth_indep with (d' := g 0) by (rewrite length_map, length_seq; lia).
  rewrite map_nth, seq_nth by lia; reflexivity.
Qed.

Lemma nth_frames (s : source N) (len : nat) : forall a f ch,
  f < len -> ch < numberOfChannels s ->
  nth (f * numberOfChannels s + ch) (flat_map (frame s) (seq a len)) 0%Z
  = pcm16 (channelData s ch (a + f)).
Proof.
  induction len as [|len IH]; intros a f ch Hf Hch; [lia|].
  cbn [seq flat_map].
  assert (Lf : List.length (frame s a) = numberOfChannels s)
    by (unfold frame; rewrite length_map, length_seq; reflexivity).
  destruct f as [|f].
  - rewrite app_nth1 by (simpl; lia).
    unfold frame.
    rewrite (nth_map_seq0 (fun ch => pcm16 (channelData s ch a))) by lia.
    rewrite Nat.add_0_r; reflexivity.
  - rewrite app_nth2 by (simpl; lia).
    rewrite Lf.
    replace (S f * numberOfChannels s + ch - numberOfChannels s)
      with (f * numberOfChannels s + ch) by lia.
    rewrite IH by lia.
    f_equal; f_equal; lia.
Qed.

Lemma length_frames (s : source N) (len : nat) : forall a,
  List.length (flat_map (frame s) (seq a len)) = len * numberOfChannels s.
Proof.
  induction len as [|len IH]; intros a; simpl; [reflexivity|].
  rewrite length_app, IH.
  unfold frame; rewrite length_map, length_seq; lia.
Qed.

(** X18: the WAV file bufferToWave builds for the call tones has the
    declared size, a RIFF/WAVE header with the buffer's channel count
    and sample rate and size fields matching its length, and decoding
    the 16-bit little-endian sample at frame [f], channel [ch] gives
    back the converted sample of [getChannelData(ch)[f]]. The [while]
    loop ends with [pos] equal to the file length. *)
Theorem bufferToWave_round_trip (s : source N) (len : nat) :
  let r := bufferToWave_run pcm16 s len in
  let w := snd r in
  fst r = List.length w
  /\ List.length w = 44 + len * numberOfChannels s * 2
  /\ firstn 4 w = char_codes "RIFF"
  /\ firstn 4 (skipn 8 w) = char_codes "WAVE"
  /\ firstn 4 (skipn 12 w) = char_codes "fmt "
  /\ firstn 4 (skipn 36 w) = char_codes "data"
  /\ read_le w 20 2 = 1%Z
  /\ read_le w 22 2 = (Z.of_nat (numberOfChannels s) mod 2 ^ 16)%Z
  /\ read_le w 24 4 = (sampleRate s mod 2 ^ 32)%Z
  /\ read_le w 34 2 = 16%Z
  /\ read_le w 4 4 = ((Z.of_nat (List.length w) - 8) mod 2 ^ 32)%Z
  /\ read_le w 40 4 = ((Z.of_nat (List.length w) - 44) mod 2 ^ 32)%Z
  /\ (forall f ch, f < len -> ch < numberOfChannels s ->
      read_le w (44 + 2 * (f * numberOfChannels s + ch)) 2
      = (pcm16 (channelData s ch f) mod 2 ^ 16)%Z).
Proof.
  intros r w.
  assert (Er : r = (44 + len * numberOfChannels s * 2,
                    wave_header s len
                    ++ flat_map (le_bytes 2) (flat_map (frame s) (seq 0 len))))
    by apply bufferToWave_split.
  assert (Ew : w = wave_header s len
                   ++ flat_map (le_bytes 2) (flat_map (frame s) (seq 0 len)))
    by (unfold w; rewrite Er; reflexivity).
  assert (Lw : List.length w = 44 + len * numberOfChannels s * 2).
  { rewrite Ew, length_app, length_flat_map_le2, length_frames.
    change (List.length (wave_header s len)) with 44; lia. }
  split; [rewrite Er, Lw; reflexivity|].
  split; [exact Lw|].
  rewrite Lw.
  replace (Z.of_nat (44 + len * numberOfChannels s * 2) - 44)%Z
    with (Z.of_nat (44 + len * numberOfChannels s * 2) - 40 - 4)%Z by lia.
  rewrite Ew.
  repeat split; try reflexivity.
  - transitivity (decode (le_bytes 2 (Z.of_nat (numberOfChannels s))));
      [reflexivity|apply decode_le].
  - transitivity (decode (le_bytes 4 (sampleRate s)));
      [reflexivity|apply decode_le].
  - transitivity (decode (le_bytes 4
      (Z.of_nat (44 + len * numberOfChannels s * 2) - 8)));
      [reflexivity|apply decode_le].
  - transitivity (decode (le_bytes 4
      (Z.of_nat (44 + len * numberOfChannels s * 2) - 40 - 4)));
      [reflexivity|apply decode_le].
  - intros f ch Hf Hch.
    change 44 with (List.length (wave_header s len) + 0) at 1.
    rewrite <- Nat.add_assoc, read_le_skip, Nat.add_0_l.
    rewrite read_sample.
    + rewrite nth_frames by assumption; reflexivity.
    + rewrite length_frames; nia.
Qed.

End Facts.

End WaveFacts.
